(** * Helenus: schemaless collections over a relational engine

    A shallow embedding of [helenus.py]: the [Field] filter-expression
    builder, the statement texts that [Table] assembles, the calls it makes
    on the database connection, and the [Helenus] registry of table objects.

    The relational engine (PostgreSQL reached through psycopg2) is not part
    of the program.  It is modelled in [Module Pg] by a small interpreter of
    the statement texts the program sends: one statement per [execute], in
    the fragment of SQL that the program's templates produce; one session's
    view of the catalog and the rows; unquoted identifiers folded to lower
    case; three-valued comparison.  Transaction status (a failed
    transaction refusing further statements until rollback) is not
    modelled.

    Results that run statements on the engine are stated for names that are
    plain identifiers ([ident]): these the engine reads back as written.
    Results about statement texts and parameter maps hold for all names. *)

From Stdlib Require Import QArith Ascii String.
From stdpp Require Import gmap strings list fin_maps.

Local Open Scope string_scope.
Local Open Scope Z_scope.
Set Warnings "-register-all".

(** ** Python values *)

Inductive Value : Type :=
  | VNone
  | VBool (b : bool)
  | VStr (s : string)
  | VInt (z : Z)
  | VFloat (q : Q)
  | VList (l : list Value)
  | VDict (d : list (string * Value))
  | VObject (cls : string).

(** [type(value)] *)
Inductive PyType : Type :=
  | TyNoneType | TyBool | TyStr | TyInt | TyFloat | TyList | TyDict
  | TyClass (cls : string).

Global Instance PyType_eq_dec : EqDecision PyType.
Proof. solve_decision. Defined.

Definition type_of (v : Value) : PyType :=
  match v with
  | VNone => TyNoneType
  | VBool _ => TyBool
  | VStr _ => TyStr
  | VInt _ => TyInt
  | VFloat _ => TyFloat
  | VList _ => TyList
  | VDict _ => TyDict
  | VObject c => TyClass c
  end.

(** ** Exceptions *)

Inductive Exn : Type :=
  | KeyError (key : string)
  | KeyErrorType (ty : PyType)
  | NameError (name : string)
  | ProgrammingError (msg : string)
  | SyntaxError_ (stmt : string)
  | UndefinedTable (t : string)
  | UndefinedColumn (c : string)
  | UndefinedObject (ty : string)
  | DuplicateTable (t : string)
  | DuplicateColumn (c : string)
  | DatatypeMismatch (c : string)
  | TypeError_ (msg : string)
  | IndexError (msg : string).

Inductive Result (A : Type) : Type :=
  | Ok (a : A)
  | Raise (e : Exn).
Arguments Ok {A} a.
Arguments Raise {A} e.

Global Instance Result_ret : MRet Result := fun _ a => Ok a.
Global Instance Result_bind : MBind Result := fun _ _ f m =>
  match m with
  | Ok a => f a
  | Raise e => Raise e
  end.

(** ** class Field *)

Record Field : Type := mkField {
  name : string;
  value : Value;
  op : option string
}.

(** [Field.__init__]: [value] and [op] start as [None]. *)
Definition Field_init (n : string) : Field :=
  {| name := n; value := VNone; op := None |}.

Definition equals (self : Field) (v : Value) : Field :=
  {| name := name self; value := v; op := Some "=" |}.

Definition exists_ (self : Field) : Field :=
  {| name := name self; value := VStr ""; op := Some "is not null and '' =" |}.

Definition greater_than (self : Field) (v : Value) : Field :=
  {| name := name self; value := v; op := Some ">" |}.

Definition less_than (self : Field) (v : Value) : Field :=
  {| name := name self; value := v; op := Some "<" |}.

Definition greater_or_equal (self : Field) (v : Value) : Field :=
  {| name := name self; value := v; op := Some ">=" |}.

Definition less_or_equal (self : Field) (v : Value) : Field :=
  {| name := name self; value := v; op := Some "<=" |}.

(** ** Statement texts *)

(** [sep.join(l)] *)
Fixpoint join (sep : string) (l : list string) : string :=
  match l with
  | [] => ""
  | [x] => x
  | x :: rest => x +:+ sep +:+ join sep rest
  end.

(** ["{}".format(f.op)]: an unset operator prints as [None]. *)
Definition format_op (o : option string) : string :=
  match o with
  | Some s => s
  | None => "None"
  end.

(** ["{} {} %({})s".format(f.name, f.op, f.name)] *)
Definition render_field (f : Field) : string :=
  name f +:+ " " +:+ format_op (op f) +:+ " %(" +:+ name f +:+ ")s".

(** A dict built entry by entry: a later entry replaces an earlier one
    with the same key. *)
Definition dict_of (items : list (string * Value)) : gmap string Value :=
  foldl (fun m p => <[fst p := snd p]> m) ∅ items.

(** [{f.name: f.value for f in args}] *)
Definition fmt_values (fs : list Field) : gmap string Value :=
  dict_of (map (fun f => (name f, value f)) fs).

(** The positional arguments of [query]: [Field] instances or anything
    else. *)
Inductive Arg : Type :=
  | AField (f : Field)
  | AValue (v : Value).

Definition isinstance_Field (a : Arg) : bool :=
  match a with AField _ => true | AValue _ => false end.

(** The [Field]s among the arguments (all of them on the first branch of
    [query]). *)
Definition fields_of (args : list Arg) : list Field :=
  omap (fun a => match a with AField f => Some f | AValue _ => None end) args.

(** What [query] hands to [cursor.execute], if anything: the statement text
    and the parameter map ([None] when [execute] gets the text alone). *)
Definition query_call (table_name : string) (args : list Arg)
  : option (string * option (gmap string Value)) :=
  let stmt := "SELECT * FROM " +:+ table_name in
  if forallb isinstance_Field args then
    let fs := fields_of args in
    let stmt :=
      if (0 <? length args)%nat
      then stmt +:+ " WHERE " +:+ join " AND " (map render_field fs)
      else stmt in
    Some (stmt, Some (fmt_values fs))
  else
    match args with
    | [AValue (VStr s)] => Some (stmt +:+ " WHERE " +:+ s, None)
    | _ => None
    end.

(** ** The engine: lexical structure of statements *)

Module Pg.

Inductive token : Type :=
  | TId (s : string)        (* identifier or key word, folded to lower case *)
  | TStr (s : string)       (* '...' literal *)
  | TNum (z : Z)            (* integer literal *)
  | TParam (key : string)   (* %(key)s placeholder *)
  | TSym (s : string)       (* punctuation and comparison operators *)
  | TBad.

Global Instance token_eq_dec : EqDecision token.
Proof. solve_decision. Defined.

Definition code (c : ascii) : N := N_of_ascii c.

Definition is_lower (c : ascii) : bool := ((97 <=? code c) && (code c <=? 122))%N.
Definition is_upper (c : ascii) : bool := ((65 <=? code c) && (code c <=? 90))%N.
Definition is_digit (c : ascii) : bool := ((48 <=? code c) && (code c <=? 57))%N.
Definition is_space (c : ascii) : bool :=
  ((code c =? 32) || (code c =? 10) || (code c =? 9) || (code c =? 13))%N.

(** Characters that start an identifier, and those that continue one. *)
Definition is_start (c : ascii) : bool :=
  is_lower c || is_upper c || (code c =? 95)%N.
Definition is_word (c : ascii) : bool := is_start c || is_digit c.

(** Unquoted identifiers are folded to lower case. *)
Definition fold_case (c : ascii) : ascii :=
  if is_upper c then ascii_of_N (code c + 32) else c.

Definition snoc (s : string) (c : ascii) : string := s +:+ String c "".

Inductive lstate : Type :=
  | LIdle
  | LWord (acc : string)
  | LNum (n : Z)
  | LQuote (acc : string)
  | LPct
  | LParam (acc : string)
  | LParamEnd (acc : string)
  | LLt
  | LGt.

Definition step_idle (c : ascii) : list token * lstate :=
  if is_space c then ([], LIdle)
  else if is_start c then ([], LWord (String (fold_case c) ""))
  else if is_digit c then ([], LNum (Z.of_N (code c) - 48))
  else if (code c =? 39)%N then ([], LQuote "")
  else if (code c =? 37)%N then ([], LPct)
  else if (code c =? 60)%N then ([], LLt)
  else if (code c =? 62)%N then ([], LGt)
  else if ((code c =? 61) || (code c =? 40) || (code c =? 41)
           || (code c =? 44) || (code c =? 42) || (code c =? 46))%N
       then ([TSym (String c "")], LIdle)
  else ([TBad], LIdle).

Definition emit (t : token) (c : ascii) : list token * lstate :=
  let '(ts, st) := step_idle c in (t :: ts, st).

Definition step (st : lstate) (c : ascii) : list token * lstate :=
  match st with
  | LIdle => step_idle c
  | LWord acc =>
      if is_word c then ([], LWord (snoc acc (fold_case c))) else emit (TId acc) c
  | LNum n =>
      if is_digit c then ([], LNum (10 * n + (Z.of_N (code c) - 48)))
      else emit (TNum n) c
  | LQuote acc =>
      if (code c =? 39)%N then ([TStr acc], LIdle) else ([], LQuote (snoc acc c))
  | LPct =>
      if (code c =? 40)%N then ([], LParam "") else emit TBad c
  | LParam acc =>
      if (code c =? 41)%N then ([], LParamEnd acc) else ([], LParam (snoc acc c))
  | LParamEnd acc =>
      if (code c =? 115)%N then ([TParam acc], LIdle) else emit TBad c
  | LLt =>
      if (code c =? 61)%N then ([TSym "<="], LIdle) else emit (TSym "<") c
  | LGt =>
      if (code c =? 61)%N then ([TSym ">="], LIdle) else emit (TSym ">") c
  end.

(** What is pending when the text ends. *)
Definition flush (st : lstate) : list token :=
  match st with
  | LIdle => []
  | LWord acc => [TId acc]
  | LNum n => [TNum n]
  | LLt => [TSym "<"]
  | LGt => [TSym ">"]
  | LQuote _ | LPct | LParam _ | LParamEnd _ => [TBad]
  end.

Fixpoint lex_from (st : lstate) (s : string) : list token :=
  match s with
  | EmptyString => flush st
  | String c s' => let '(ts, st') := step st c in ts ++ lex_from st' s'
  end.

Definition lex (s : string) : list token := lex_from LIdle s.

(** The tokens completed while reading a part of the text, and the state
    reached at its end. *)
Fixpoint lex_run (st : lstate) (s : string) : list token * lstate :=
  match s with
  | EmptyString => ([], st)
  | String c s' =>
      let '(ts, st') := step st c in
      let '(ts', st'') := lex_run st' s' in
      ((ts ++ ts')%list, st'')
  end.

(** ** The engine: statements *)

Inductive SqlType : Type := TVarchar | TBigint | TNumeric | TJson.

Global Instance SqlType_eq_dec : EqDecision SqlType.
Proof. solve_decision. Defined.

Definition parse_type (s : string) : option SqlType :=
  if String.eqb s "varchar" then Some TVarchar
  else if String.eqb s "bigint" then Some TBigint
  else if String.eqb s "numeric" then Some TNumeric
  else if String.eqb s "json" then Some TJson
  else None.

(** The [data_type] that [information_schema.columns] reports. *)
Definition data_type (ty : SqlType) : string :=
  match ty with
  | TVarchar => "character varying"
  | TBigint => "bigint"
  | TNumeric => "numeric"
  | TJson => "json"
  end.

Inductive operand : Type :=
  | OCol (c : string)
  | OText (s : string)
  | OInt (z : Z)
  | OParam (key : string).

Inductive cond : Type :=
  | CIsNotNull (a : operand)
  | CCmp (o : string) (a b : operand).

Inductive Stmt : Type :=
  | STableExists (t : string)
  | SColumns (t : string)
  | SCreate (t : string)
  | SAddColumn (t c ty : string)
  | SInsert (t : string) (cs : list string) (keys : list string)
  | SSelect (t : string) (w : list cond)
  | STruncate (t : string).

(** Reserved words cannot name a table or a column. *)
Definition reserved : list string :=
  ["select"; "from"; "where"; "and"; "or"; "not"; "null"; "is"; "table";
   "create"; "into"; "column"; "true"; "false"].

Definition is_name (s : string) : bool := negb (existsb (String.eqb s) reserved).

Definition keywords (ws : list string) : list token := TId <$> ws.

Fixpoint strip (pre toks : list token) : option (list token) :=
  match pre with
  | [] => Some toks
  | p :: pre' =>
      match toks with
      | t :: toks' => if decide (p = t) then strip pre' toks' else None
      | [] => None
      end
  end.

Definition parse_operand (t : token) : option operand :=
  match t with
  | TId c => if is_name c then Some (OCol c) else None
  | TStr s => Some (OText s)
  | TNum z => Some (OInt z)
  | TParam k => Some (OParam k)
  | _ => None
  end.

Definition is_cmp (o : string) : bool :=
  existsb (String.eqb o) ["="; "<"; ">"; "<="; ">="].

(** The conjuncts of a WHERE clause: the token runs between [AND]s. *)
Fixpoint split_and (toks : list token) : list (list token) :=
  match toks with
  | [] => [[]]
  | t :: rest =>
      if decide (t = TId "and") then [] :: split_and rest
      else match split_and rest with
           | c :: cs => (t :: c) :: cs
           | [] => [[t]]
           end
  end.

Definition parse_cond (chunk : list token) : option cond :=
  match chunk with
  | [a; TSym o; b] =>
      if is_cmp o then
        a' ← parse_operand a; b' ← parse_operand b; Some (CCmp o a' b')
      else None
  | [a; i; n; u] =>
      if decide ([i; n; u] = keywords ["is"; "not"; "null"])
      then CIsNotNull <$> parse_operand a
      else None
  | _ => None
  end.

Definition parse_where (toks : list token) : option (list cond) :=
  mapM parse_cond (split_and toks).

(** [c1 , c2 , ... )] *)
Fixpoint parse_ids (toks : list token) : option (list string * list token) :=
  match toks with
  | TId c :: TSym s :: rest =>
      if negb (is_name c) then None
      else if String.eqb s "," then
        '(cs, r) ← parse_ids rest; Some (c :: cs, r)
      else if String.eqb s ")" then Some ([c], rest)
      else None
  | _ => None
  end.

(** [%(k1)s , %(k2)s , ... )] *)
Fixpoint parse_keys (toks : list token) : option (list string * list token) :=
  match toks with
  | TParam k :: TSym s :: rest =>
      if String.eqb s "," then
        '(ks, r) ← parse_keys rest; Some (k :: ks, r)
      else if String.eqb s ")" then Some ([k], rest)
      else None
  | _ => None
  end.

Definition exists_prefix : list token :=
  Eval vm_compute in
    lex "SELECT EXISTS( SELECT 1 FROM information_schema.tables WHERE table_schema='public' AND table_name=".

Definition columns_prefix : list token :=
  Eval vm_compute in
    lex "SELECT column_name, data_type FROM information_schema.columns WHERE table_name=".

Definition parse_catalog (toks : list token) : option Stmt :=
  match strip exists_prefix toks with
  | Some [TStr t; close] =>
      if decide (close = TSym ")") then Some (STableExists t) else None
  | Some _ => None
  | None =>
      match strip columns_prefix toks with
      | Some [TStr t] => Some (SColumns t)
      | _ => None
      end
  end.

Definition parse_select (toks : list token) : option Stmt :=
  match strip [TId "select"; TSym "*"; TId "from"] toks with
  | Some [TId t] => if is_name t then Some (SSelect t []) else None
  | Some (TId t :: kw :: w) =>
      if is_name t && bool_decide (kw = TId "where")
      then SSelect t <$> parse_where w
      else None
  | _ => None
  end.

Definition parse_ddl (toks : list token) : option Stmt :=
  match toks with
  | [TId k1; TId k2; TId t; open; close] =>
      if bool_decide ([TId k1; TId k2; open; close]
                      = [TId "create"; TId "table"; TSym "("; TSym ")"])
         && is_name t
      then Some (SCreate t) else None
  | [TId k1; TId k2; TId t] =>
      if bool_decide ([k1; k2] = ["truncate"; "table"]) && is_name t
      then Some (STruncate t) else None
  | TId k1 :: TId k2 :: TId t :: rest =>
      if bool_decide ([k1; k2] = ["alter"; "table"]) && is_name t then
        match strip (keywords ["add"; "column"; "if"; "not"; "exists"]) rest with
        | Some [TId c; TId ty] =>
            if is_name c then Some (SAddColumn t c ty) else None
        | _ => None
        end
      else None
  | _ => None
  end.

Definition parse_insert (toks : list token) : option Stmt :=
  match strip (keywords ["insert"; "into"]) toks with
  | Some (TId t :: open :: rest) =>
      if is_name t && bool_decide (open = TSym "(") then
        '(cs, r) ← parse_ids rest;
        r' ← strip [TId "values"; TSym "("] r;
        '(ks, r'') ← parse_keys r';
        match r'' with [] => Some (SInsert t cs ks) | _ => None end
      else None
  | _ => None
  end.

Definition parse (toks : list token) : option Stmt :=
  match parse_catalog toks with
  | Some s => Some s
  | None =>
  match parse_select toks with
  | Some s => Some s
  | None =>
  match parse_ddl toks with
  | Some s => Some s
  | None => parse_insert toks
  end end end.

(** ** The engine: data and execution *)

Record TableData : Type := mkTable {
  cols : list (string * SqlType);       (* in order of creation *)
  rows : list (gmap string Value)       (* an absent column is NULL *)
}.

Abbreviation DB := (gmap string TableData).

(** A result row, column by column. *)
Abbreviation Row := (list (string * Value)).

Definition col_type (td : TableData) (c : string) : option SqlType :=
  snd <$> find (fun p => String.eqb (fst p) c) (cols td).

Definition cell (r : gmap string Value) (c : string) : Value :=
  default VNone (r !! c).

Definition project (td : TableData) (r : gmap string Value) : Row :=
  map (fun p => (fst p, cell r (fst p))) (cols td).

(** Values the client library can turn into SQL literals. *)
Definition adaptable (v : Value) : bool :=
  match v with
  | VDict _ | VObject _ => false
  | _ => true
  end.

(** Client side: every placeholder needs an adaptable value under its key;
    without a parameter map the placeholder text reaches the server, which
    rejects it. *)
Fixpoint bind_params (stmt : string) (params : option (gmap string Value))
    (toks : list token) : Result () :=
  match toks with
  | [] => Ok ()
  | TParam k :: rest =>
      match params with
      | None => Raise (SyntaxError_ stmt)
      | Some m =>
          match m !! k with
          | None => Raise (KeyError k)
          | Some v =>
              if adaptable v then bind_params stmt params rest
              else Raise (ProgrammingError "can't adapt type")
          end
      end
  | _ :: rest => bind_params stmt params rest
  end.

Definition numeric (v : Value) : option Q :=
  match v with
  | VInt z => Some (inject_Z z)
  | VFloat q => Some q
  | _ => None
  end.

Definition holds (o : string) (c : comparison) : bool :=
  if String.eqb o "=" then bool_decide (c = Eq)
  else if String.eqb o "<" then bool_decide (c = Lt)
  else if String.eqb o ">" then bool_decide (c = Gt)
  else if String.eqb o "<=" then negb (bool_decide (c = Gt))
  else if String.eqb o ">=" then negb (bool_decide (c = Lt))
  else false.

(** Comparison is three-valued: with a NULL on either side it is unknown
    ([None]).  Text compares with text and numbers with numbers. *)
Definition compare_values (o : string) (a b : Value) : Result (option bool) :=
  match a, b with
  | VNone, _ | _, VNone => Ok None
  | VStr x, VStr y => Ok (Some (holds o (String.compare x y)))
  | _, _ =>
      match numeric a, numeric b with
      | Some x, Some y => Ok (Some (holds o (Qcompare x y)))
      | _, _ => Raise (DatatypeMismatch o)
      end
  end.

Section Eval.
Context (td : TableData) (params : gmap string Value).

Definition check_operand (a : operand) : Result () :=
  match a with
  | OCol c => if col_type td c is Some _ then Ok () else Raise (UndefinedColumn c)
  | _ => Ok ()
  end.

(** Name resolution happens before any row is read. *)
Definition check_cond (c : cond) : Result () :=
  match c with
  | CIsNotNull a => check_operand a
  | CCmp _ a b => check_operand a ;; check_operand b
  end.

Definition eval_operand (r : gmap string Value) (a : operand) : Value :=
  match a with
  | OCol c => cell r c
  | OText s => VStr s
  | OInt z => VInt z
  | OParam k => cell params k
  end.

Definition eval_cond (r : gmap string Value) (c : cond) : Result bool :=
  match c with
  | CIsNotNull a =>
      Ok (match eval_operand r a with VNone => false | _ => true end)
  | CCmp o a b =>
      v ← compare_values o (eval_operand r a) (eval_operand r b);
      Ok (default false v)
  end.

(** A row is selected when every conjunct is true. *)
Fixpoint matches (r : gmap string Value) (w : list cond) : Result bool :=
  match w with
  | [] => Ok true
  | c :: w' =>
      b ← eval_cond r c;
      b' ← matches r w';
      Ok (b && b')
  end.

Fixpoint select_rows (w : list cond) (rs : list (gmap string Value))
    : Result (list (gmap string Value)) :=
  match rs with
  | [] => Ok []
  | r :: rs' =>
      b ← matches r w;
      k ← select_rows w rs';
      Ok (if (b : bool) then r :: k else k)
  end.
End Eval.

(** Which values a column takes.  (A simplification: a text literal goes
    into text and json columns only, a number into numeric ones.) *)
Definition compatible (ty : SqlType) (v : Value) : bool :=
  match v, ty with
  | VNone, _ => true
  | VStr _, (TVarchar | TJson) => true
  | VInt _, (TBigint | TNumeric) => true
  | VFloat _, TNumeric => true
  | _, _ => false
  end.

(** The row an INSERT builds from its column list and placeholder keys. *)
Fixpoint build_row (stmt : string) (td : TableData) (params : gmap string Value)
    (cs ks : list string) : Result (gmap string Value) :=
  match cs, ks with
  | [], [] => Ok ∅
  | c :: cs', k :: ks' =>
      match col_type td c with
      | None => Raise (UndefinedColumn c)
      | Some ty =>
          if compatible ty (cell params k) then
            r ← build_row stmt td params cs' ks';
            if r !! c is Some _ then Raise (DuplicateColumn c)
            else Ok (<[c := cell params k]> r)
          else Raise (DatatypeMismatch c)
      end
  | _, _ => Raise (SyntaxError_ stmt)
  end.

Definition get_table (d : DB) (t : string) : Result TableData :=
  match d !! t with
  | Some td => Ok td
  | None => Raise (UndefinedTable t)
  end.

(** The new view of the database, and the result set if the statement has
    one. *)
Abbreviation Outcome := (Result (DB * option (list Row))).

(** What [information_schema.columns] lists for a table. *)
Definition listing (td : TableData) : list Row :=
  map (fun p => [("column_name", VStr (fst p));
                 ("data_type", VStr (data_type (snd p)))]) (cols td).

(** One statement on the session's view of the database. *)
Definition run (stmt : string) (d : DB) (params : gmap string Value) (s : Stmt)
    : Outcome :=
  match s with
  | STableExists t =>
      Ok (d, Some [[("exists", VBool (bool_decide (is_Some (d !! t))))]])
  | SColumns t => Ok (d, Some (from_option listing [] (d !! t)))
  | SCreate t =>
      match d !! t with
      | Some _ => Raise (DuplicateTable t)
      | None => Ok (<[t := mkTable [] []]> d, None)
      end
  | SAddColumn t c ty =>
      td ← get_table d t;
      match parse_type ty return Outcome with
      | None => Raise (UndefinedObject ty)
      | Some ty' =>
          if col_type td c is Some _ then Ok (d, None)
          else Ok (<[t := mkTable (cols td ++ [(c, ty')]) (rows td)]> d, None)
      end
  | SInsert t cs ks =>
      td ← get_table d t;
      r ← build_row stmt td params cs ks;
      Ok (<[t := mkTable (cols td) (rows td ++ [r])]> d, None)
  | SSelect t w =>
      td ← get_table d t;
      mapM (check_cond td) w ;;
      rs ← select_rows params w (rows td);
      Ok (d, Some (map (project td) rs))
  | STruncate t =>
      td ← get_table d t;
      Ok (<[t := mkTable (cols td) []]> d, None)
  end.

(** [cursor.execute(stmt, params)] as the engine sees it. *)
Definition execute (d : DB) (stmt : string) (params : option (gmap string Value))
    : Outcome :=
  let toks := lex stmt in
  bind_params stmt params toks ;;
  match parse toks with
  | None => Raise (SyntaxError_ stmt)
  | Some s => run stmt d (default ∅ params) s
  end.

End Pg.

(** ** Plain identifiers *)

(** Names that the engine reads back as written: a lower-case letter or an
    underscore, then lower-case letters, digits and underscores, and not a
    reserved word. *)
Definition is_plain_start (c : ascii) : bool :=
  Pg.is_lower c || (Pg.code c =? 95)%N.

Definition is_plain (c : ascii) : bool := is_plain_start c || Pg.is_digit c.

Fixpoint all_chars (p : ascii -> bool) (s : string) : bool :=
  match s with
  | EmptyString => true
  | String c s' => p c && all_chars p s'
  end.

Definition plain (s : string) : bool :=
  match s with
  | EmptyString => false
  | String c s' => is_plain_start c && all_chars is_plain s'
  end.

Definition ident (s : string) : bool := plain s && Pg.is_name s.

(** ** The connection *)

Inductive Call : Type :=
  | CExecute (stmt : string) (params : option (gmap string Value))
  | CCommit.

(** The connection object: the session's view of the database, and a
    record of the calls made on it. *)
Record Conn : Type := mkConn {
  session : Pg.DB;
  calls : list Call
}.

(** Code that uses the connection: it may raise, and what it did before
    raising stays done. *)
Definition M (A : Type) : Type := Conn -> Result A * Conn.

Global Instance M_ret : MRet M := fun _ a c => (Ok a, c).
Global Instance M_bind : MBind M := fun _ _ f m c =>
  match m c with
  | (Ok a, c') => f a c'
  | (Raise e, c') => (Raise e, c')
  end.

Definition raise {A} (e : Exn) : M A := fun c => (Raise e, c).

Definition lift {A} (r : Result A) : M A := fun c => (r, c).

(** A cursor holds the result set of the last statement it executed, if
    that statement produced one. *)
Abbreviation Cursor := (option (list Pg.Row)).

Definition new_cursor : Cursor := None.

Definition cursor_execute (stmt : string) (params : option (gmap string Value))
    : M Cursor := fun c =>
  let sent := (calls c ++ [CExecute stmt params])%list in
  match Pg.execute (session c) stmt params with
  | Ok (d, res) => (Ok res, mkConn d sent)
  | Raise e => (Raise e, mkConn (session c) sent)
  end.

Definition fetchall (cur : Cursor) : M (list Pg.Row) :=
  match cur with
  | Some rs => mret rs
  | None => raise (ProgrammingError "no results to fetch")
  end.

(** [cursor.fetchone()]: the next row, or [None] when there is none. *)
Definition fetchone (cur : Cursor) : M (option Pg.Row) :=
  match cur with
  | Some rs => mret (head rs)
  | None => raise (ProgrammingError "no results to fetch")
  end.

Definition commit : M () := fun c =>
  (Ok (), mkConn (session c) (calls c ++ [CCommit])%list).

(** ** class Table *)

(** A [Table] object.  [oid] is the identity of the object; its
    [connection] attribute is the one connection threaded through [M]. *)
Record Table : Type := mkTableObj {
  oid : nat;
  table_name : string
}.

(** [Table.type_mapping] *)
Definition type_mapping : list (PyType * string) :=
  [ (TyStr, "varchar");
    (TyInt, "bigint");
    (TyFloat, "numeric");
    (TyList, "json");
    (TyDict, "json") ].

(** [type_mapping[ty]] *)
Definition type_mapping_get (ty : PyType) : Result string :=
  match find (fun p => bool_decide (fst p = ty)) type_mapping with
  | Some p => Ok (snd p)
  | None => Raise (KeyErrorType ty)
  end.

(** Python truth of a value, as [if] tests it. *)
Definition truthy (v : Value) : bool :=
  match v with
  | VNone => false
  | VBool b => b
  | VStr s => negb (String.eqb s "")
  | VInt z => negb (z =? 0)
  | VFloat q => negb (Qeq_bool q 0)
  | VList l => negb (bool_decide (l = []))
  | VDict d => negb (bool_decide (d = []))
  | VObject _ => true
  end.

(** [v == s] for a string [s]. *)
Definition str_eq (v : Value) (s : string) : bool :=
  match v with
  | VStr x => String.eqb x s
  | _ => false
  end.

(** [row[key]] on a row of a [RealDictCursor]. *)
Definition row_get (r : Pg.Row) (key : string) : Result Value :=
  match find (fun p => String.eqb (fst p) key) r with
  | Some p => Ok (snd p)
  | None => Raise (KeyError key)
  end.

(** The statement of [_exists]: the template [% self.table_name]. *)
Definition exists_stmt (table_name : string) : string :=
  "
            SELECT EXISTS(
                SELECT 1
                FROM information_schema.tables
                WHERE table_schema='public' AND table_name='" +:+ table_name +:+ "'
            )".

Definition _exists (self : Table) : M Value :=
  let stmt := exists_stmt (table_name self) in
  cursor ← cursor_execute stmt None;
  res ← fetchone cursor;
  match res with
  | Some ((_, v) :: _) => mret v
  | Some [] => raise (IndexError "tuple index out of range")
  | None => raise (TypeError_ "'NoneType' object is not subscriptable")
  end.

(** One entry of [{i['column_name']: i['data_type'] for i in res}]. *)
Definition column_entry (i : Pg.Row) : Result (string * Value) :=
  k ← row_get i "column_name";
  v ← row_get i "data_type";
  match k with
  | VStr c => Ok (c, v)
  | _ => Raise (TypeError_ "column name is not a string")
  end.

(** The statement of [columns]. *)
Definition columns_stmt (table_name : string) : string :=
  "
            SELECT column_name, data_type
            FROM information_schema.columns
            WHERE table_name='" +:+ table_name +:+ "'
        ".

Definition columns (self : Table) : M (gmap string Value) :=
  let stmt := columns_stmt (table_name self) in
  cursor ← cursor_execute stmt None;
  res ← fetchall cursor;
  entries ← lift (mapM column_entry res);
  mret (dict_of entries).

(** The statement of [add_column]:
    the template [% (self.table_name, name, type)]. *)
Definition add_column_stmt (table_name name type : string) : string :=
  "
            ALTER TABLE " +:+ table_name +:+ "
            ADD COLUMN IF NOT EXISTS " +:+ name +:+ " " +:+ type +:+ "
        ".

Definition add_column (self : Table) (name type : string) : M () :=
  let stmt := add_column_stmt (table_name self) name type in
  cursor_execute stmt None ;; mret ().

(** ["CREATE TABLE {} ()".format(self.table_name)] *)
Definition create_stmt (table_name : string) : string :=
  "CREATE TABLE " +:+ table_name +:+ " ()".

(** ["TRUNCATE TABLE {}".format(self.table_name)] *)
Definition truncate_stmt (table_name : string) : string :=
  "TRUNCATE TABLE " +:+ table_name.

(** [Table.__init__]; the object's identity is chosen by the caller. *)
Definition Table_init (id : nat) (name : string) : M Table :=
  let self := mkTableObj id name in
  ex ← _exists self;
  (if truthy ex then mret ()
   else cursor_execute (create_stmt name) None ;; commit) ;;
  columns self ;;
  mret self.

Definition truncate (self : Table) : M () :=
  cursor_execute (truncate_stmt (table_name self)) None ;;
  commit.

Definition query (self : Table) (args : list Arg) : M (list Pg.Row) :=
  cursor ← match query_call (table_name self) args with
            | Some (stmt, params) => cursor_execute stmt params
            | None => mret new_cursor
            end;
  fetchall cursor.

(** Names bound at module level by the [import] statements and the class
    definitions of the file. *)
Definition module_globals : list string :=
  ["psycopg2"; "RealDictCursor"; "logging"; "Helenus"; "Table"; "Field"].

(** Evaluating a global name. *)
Definition global_name (n : string) : Result () :=
  if bool_decide (n ∈ module_globals) then Ok () else Raise (NameError n).

(** The statement text that [insert] assembles from the table name and
    [obj.keys()]. *)
Definition insert_stmt (table_name : string) (keys : list string) : string :=
  let stmt := "INSERT INTO " +:+ table_name +:+ " " in
  let stmt := stmt +:+ ("(" +:+ join "," keys +:+ ")") in
  let stmt := stmt +:+ " VALUES " in
  let stmt := stmt +:+ ("(" +:+ join "," (map (fun field => "%(" +:+ field +:+ ")s") keys)
                        +:+ ")") in
  stmt.

Section Insert.
(** What the standard library's [json.dumps] returns. *)
Variable dumps : Value -> string.

(** [json.dumps(v)], as the module evaluates it. *)
Definition json_dumps (v : Value) : Result Value :=
  global_name "json" ;; Ok (VStr (dumps v)).

(** The loop of [insert]: a column for each key that has none. *)
Fixpoint add_missing (self : Table) (items : list (string * Value)) : M () :=
  match items with
  | [] => mret ()
  | (key, value) :: rest =>
      cs ← columns self;
      (if cs !! key is Some _ then mret ()
       else ty ← lift (type_mapping_get (type_of value));
            add_column self key ty) ;;
      add_missing self rest
  end.

(** [k: (json.dumps(v) if _cols[k] == 'json' else v)] *)
Definition bound_value (_cols : gmap string Value) (item : string * Value)
    : Result (string * Value) :=
  let '(k, v) := item in
  match _cols !! k with
  | None => Raise (KeyError k)
  | Some ty =>
      if str_eq ty "json"
      then v' ← json_dumps v; Ok (k, v')
      else Ok (k, v)
  end.

(** [obj] is the record, as [obj.items()] lists it. *)
Definition insert (self : Table) (obj : list (string * Value)) : M () :=
  add_missing self obj ;;
  let stmt := insert_stmt (table_name self) (map fst obj) in
  _cols ← columns self;
  bound ← lift (mapM (bound_value _cols) obj);
  cursor_execute stmt (Some (dict_of bound)) ;;
  commit.
End Insert.

(** ** class Helenus *)

Record Helenus : Type := mkHelenus {
  tables : gmap string Table;
  connection : Conn;
  next_oid : nat             (* identity of the next object created *)
}.

(** [self.tables[name] = self.tables.get(name, Table(self.connection, name))]:
    the [Table] is constructed before [get] looks the name up. *)
Definition table (self : Helenus) (name : string) : Result Table * Helenus :=
  match Table_init (next_oid self) name (connection self) with
  | (Ok fresh, c) =>
      let t := default fresh (tables self !! name) in
      (Ok t, mkHelenus (<[name := t]> (tables self)) c (S (next_oid self)))
  | (Raise e, c) =>
      (Raise e, mkHelenus (tables self) c (S (next_oid self)))
  end.

(** ** Sequences of operations on a collection *)






(** ** Vocabulary of the properties *)

(** The text [query] builds from a list of [Field]s. *)
Definition select_text (tn : string) (fs : list Field) : string :=
  match fs with
  | [] => "SELECT * FROM " +:+ tn
  | _ => ("SELECT * FROM " +:+ tn) +:+ " WHERE " +:+ join " AND " (map render_field fs)
  end.

(** A token the client library lets through: any but a placeholder whose
    key has no adaptable value in the parameter map. *)
Definition bindable (params : option (gmap string Value)) (t : Pg.token) : Prop :=
  match t with
  | Pg.TParam k =>
      exists m v, params = Some m /\ m !! k = Some v /\ Pg.adaptable v = true
  | _ => True
  end.

(** The WHERE clause of [exists()], as the engine reads it. *)
Definition exists_cond (f : string) : list Pg.cond :=
  [Pg.CIsNotNull (Pg.OCol f); Pg.CCmp "=" (Pg.OText "") (Pg.OParam f)].

(** The value of a row at [f] is not NULL. *)
Definition not_null (f : string) (r : gmap string Value) : bool :=
  match Pg.cell r f with VNone => false | _ => true end.

(** The connection after further calls that left the database as [d]. *)
Definition after (c : Conn) (d : Pg.DB) (new : list Call) : Conn :=
  mkConn d (calls c ++ new).

(** The dict that [columns] returns. *)
Definition column_map (d : Pg.DB) (tn : string) : gmap string Value :=
  dict_of (map (fun p => (fst p, VStr (Pg.data_type (snd p))))
               (from_option Pg.cols [] (d !! tn))).



(** The table after [ADD COLUMN IF NOT EXISTS k ty]. *)
Definition with_column (td : Pg.TableData) (k : string) (ty : Pg.SqlType)
    : Pg.TableData :=
  Pg.mkTable (Pg.cols td ++ [(k, ty)]) (Pg.rows td).




(** The registry of a [Helenus] object is in order: every handle is filed
    under its own table name, was created before [next_oid], and no two
    names share an object. *)
Definition registry_ok (h : Helenus) : Prop :=
  (forall n t, tables h !! n = Some t -> table_name t = n /\ (oid t < next_oid h)%nat)
  /\ (forall n1 n2 t1 t2,
        tables h !! n1 = Some t1 -> tables h !! n2 = Some t2 ->
        oid t1 = oid t2 -> n1 = n2).




(** A comparison expression: a [Field] with a plain identifier for name,
    on which one of the five comparison methods was called with a value the
    client library can adapt. *)
Definition comparison (f : Field) : bool :=
  ident (name f)
  && match op f with Some o => Pg.is_cmp o | None => false end
  && Pg.adaptable (value f).

(** The comparison the expression stands for: the column against the
    placeholder of the same name. *)
Definition cond_of (f : Field) : Pg.cond :=
  Pg.CCmp (format_op (op f)) (Pg.OCol (name f)) (Pg.OParam (name f)).

Definition field_tokens (f : Field) : list Pg.token :=
  [Pg.TId (name f); Pg.TSym (format_op (op f)); Pg.TParam (name f)].

Fixpoint where_tokens (fs : list Field) : list Pg.token :=
  match fs with
  | [] => []
  | [f] => field_tokens f
  | f :: rest => field_tokens f ++ Pg.TId "and" :: where_tokens rest
  end.

(** A text with no apostrophe in it. *)
Definition no_quote (s : string) : bool :=
  all_chars (fun c => negb (Pg.code c =? 39)%N) s.

(** A text that reads the same inside a ['...'] literal and as a bound
    value: printable characters, no apostrophe and no backslash. *)
Definition inline_text (s : string) : bool :=
  all_chars (fun c => (32 <=? Pg.code c)%N && (Pg.code c <=? 126)%N
                      && negb (Pg.code c =? 39)%N && negb (Pg.code c =? 92)%N) s.







(** ** Sample data *)

(** A table [test] with two rows, as after two inserts. *)
Definition demo_table : Pg.TableData :=
  Pg.mkTable [("integer", Pg.TBigint); ("string", Pg.TVarchar)]
             [ {[ "integer" := VInt 1; "string" := VStr "stuff" ]};
               {[ "integer" := VInt 2; "string" := VStr "" ]} ].

Definition demo_conn : Conn := mkConn {[ "test" := demo_table ]} [].

(** A table [t] with one integer column [x] and the row [x = 3]. *)
Definition x3_conn : Conn :=
  mkConn {[ "t" := Pg.mkTable [("x", Pg.TBigint)] [ {[ "x" := VInt 3 ]} ] ]} [].

(** * Properties *)

(** ** Statement texts and parameter maps *)

Section Texts.
Implicit Types (fs : list Field) (tn n : string).

Lemma all_fields fs : forallb isinstance_Field (AField <$> fs) = true.
Proof. induction fs; simpl; auto. Qed.

Lemma fields_of_fields fs : fields_of (AField <$> fs) = fs.
Proof. induction fs as [|f fs IH]; [done|]. cbn. f_equal. exact IH. Qed.

Lemma query_call_fields tn fs :
  query_call tn (AField <$> fs) = Some (select_text tn fs, Some (fmt_values fs)).
Proof.
  unfold query_call. rewrite all_fields, fields_of_fields.
  destruct fs; reflexivity.
Qed.

Lemma dict_of_snoc (l : list (string * Value)) p :
  dict_of (l ++ [p]) = <[fst p := snd p]> (dict_of l).
Proof. unfold dict_of. by rewrite foldl_app. Qed.

Lemma dict_of_lookup (l : list (string * Value)) n :
  dict_of l !! n = snd <$> last (filter (fun p => fst p = n) l).
Proof.
  induction l as [|p l IH] using rev_ind; [apply lookup_empty|].
  rewrite dict_of_snoc, filter_app.
  destruct (decide (fst p = n)) as [Heq|Hne].
  - rewrite Heq at 1. rewrite lookup_insert_eq. rewrite filter_cons_True by done.
    rewrite filter_nil. by rewrite last_snoc.
  - rewrite lookup_insert_ne by done. rewrite filter_cons_False by done.
    rewrite filter_nil, app_nil_r. exact IH.
Qed.

Lemma fmt_values_lookup fs n :
  fmt_values fs !! n = value <$> last (filter (fun g => name g = n) fs).
Proof.
  unfold fmt_values. rewrite dict_of_lookup.
  induction fs as [|g fs IH] using rev_ind; [done|].
  rewrite map_app, !filter_app. cbn [map].
  destruct (decide (name g = n)) as [Heq|Hne].
  - rewrite !filter_cons_True by done. rewrite !filter_nil.
    by rewrite !last_snoc.
  - rewrite !filter_cons_False by done. rewrite !filter_nil, !app_nil_r.
    exact IH.
Qed.
End Texts.

(** ** Lexing statement texts that embed plain identifiers *)

Section Lexing.
Import Pg.
Implicit Types (c : ascii) (s w acc rest : string) (st : lstate).

Lemma app_cons c s rest : String c s +:+ rest = String c (s +:+ rest).
Proof. reflexivity. Qed.

Lemma app_empty_l s : "" +:+ s = s.
Proof. reflexivity. Qed.

Lemma app_empty_r s : s +:+ "" = s.
Proof. induction s as [|c s IH]; [done|]. by rewrite app_cons, IH. Qed.

Lemma app_assoc_s s w rest : (s +:+ w) +:+ rest = s +:+ (w +:+ rest).
Proof. induction s as [|c s IH]; [done|]. by rewrite !app_cons, IH. Qed.

Lemma lex_from_app st s rest :
  lex_from st (s +:+ rest)
  = (fst (lex_run st s) ++ lex_from (snd (lex_run st s)) rest)%list.
Proof.
  revert st. induction s as [|c s IH]; intros st; [done|].
  rewrite app_cons. cbn [lex_from lex_run].
  destruct (step st c) as [ts st']. rewrite IH.
  destruct (lex_run st' s) as [ts' st'']. cbn. by rewrite app_assoc.
Qed.

Lemma lex_from_end st s :
  lex_from st s = (fst (lex_run st s) ++ flush (snd (lex_run st s)))%list.
Proof. rewrite <- (app_empty_r s) at 1. by rewrite lex_from_app. Qed.

Ltac by_char c :=
  destruct c as [[] [] [] [] [] [] [] []]; vm_compute; intuition congruence.

Lemma plain_start_char c :
  is_plain_start c = true ->
  is_space c = false /\ is_start c = true /\ fold_case c = c.
Proof. by_char c. Qed.

Lemma plain_char c :
  is_plain c = true ->
  is_word c = true /\ fold_case c = c
  /\ (code c =? 39)%N = false /\ (code c =? 41)%N = false.
Proof. by_char c. Qed.

Lemma plain_start_plain c : is_plain_start c = true -> is_plain c = true.
Proof. unfold is_plain. by intros ->. Qed.

Lemma snoc_app acc c w : snoc acc c +:+ w = acc +:+ String c w.
Proof. unfold snoc. by rewrite app_assoc_s. Qed.

Lemma lex_run_word acc w :
  all_chars is_plain w = true -> lex_run (LWord acc) w = ([], LWord (acc +:+ w)).
Proof.
  revert acc. induction w as [|c w IH]; intros acc H.
  - by rewrite app_empty_r.
  - cbn in H. apply andb_true_iff in H as [Hc Hw].
    destruct (plain_char c Hc) as (Hword & Hfold & _).
    cbn [lex_run step]. rewrite Hword, Hfold, (IH _ Hw). by rewrite snoc_app.
Qed.

Lemma lex_run_quote acc w :
  all_chars is_plain w = true -> lex_run (LQuote acc) w = ([], LQuote (acc +:+ w)).
Proof.
  revert acc. induction w as [|c w IH]; intros acc H.
  - by rewrite app_empty_r.
  - cbn in H. apply andb_true_iff in H as [Hc Hw].
    destruct (plain_char c Hc) as (_ & _ & Hq & _).
    cbn [lex_run step]. rewrite Hq, (IH _ Hw). by rewrite snoc_app.
Qed.

Lemma lex_run_param acc w :
  all_chars is_plain w = true -> lex_run (LParam acc) w = ([], LParam (acc +:+ w)).
Proof.
  revert acc. induction w as [|c w IH]; intros acc H.
  - by rewrite app_empty_r.
  - cbn in H. apply andb_true_iff in H as [Hc Hw].
    destruct (plain_char c Hc) as (_ & _ & _ & Hp).
    cbn [lex_run step]. rewrite Hp, (IH _ Hw). by rewrite snoc_app.
Qed.

Lemma plain_all s : plain s = true -> all_chars is_plain s = true.
Proof.
  destruct s as [|c s]; [done|]. cbn. intros [Hc Hs]%andb_true_iff.
  by rewrite (plain_start_plain c Hc), Hs.
Qed.

Lemma lex_run_plain s : plain s = true -> lex_run LIdle s = ([], LWord s).
Proof.
  destruct s as [|c s]; [done|]. cbn [plain]. intros [Hc Hs]%andb_true_iff.
  destruct (plain_start_char c Hc) as (Hsp & Hst & Hfold).
  cbn [lex_run step]. unfold step_idle. rewrite Hsp, Hst, Hfold.
  by rewrite (lex_run_word _ _ Hs).
Qed.

Lemma ident_plain s : ident s = true -> plain s = true.
Proof. unfold ident. by intros [? _]%andb_true_iff. Qed.

Lemma ident_name s : ident s = true -> is_name s = true.
Proof. unfold ident. by intros [_ ?]%andb_true_iff. Qed.

(** Reads the next piece of a statement text: a plain identifier by the
    lemmas above, a fixed piece by evaluation. *)
Ltac lex_piece :=
  first
    [ rewrite lex_run_plain by auto
    | rewrite lex_run_quote by auto
    | rewrite lex_run_param by auto
    | match goal with
      | |- context [lex_run ?st ?s] =>
          let r := eval vm_compute in (lex_run st s) in
          progress change (lex_run st s) with r
      end ];
  cbn [fst snd app flush].

Ltac lex_text :=
  unfold lex; rewrite ?app_assoc_s;
  repeat (rewrite lex_from_app; lex_piece);
  try (rewrite lex_from_end; lex_piece).


Lemma lex_columns_stmt tn :
  plain tn = true ->
  lex (columns_stmt tn) = (columns_prefix ++ [TStr tn])%list.
Proof.
  intros H%plain_all. unfold columns_stmt. lex_text. reflexivity.
Qed.


Lemma lex_truncate_stmt tn :
  plain tn = true ->
  lex (truncate_stmt tn) = [TId "truncate"; TId "table"; TId tn].
Proof. intros H. unfold truncate_stmt. lex_text. reflexivity. Qed.

Lemma lex_add_column_stmt tn col ty :
  plain tn = true -> plain col = true -> plain ty = true ->
  lex (add_column_stmt tn col ty)
  = [TId "alter"; TId "table"; TId tn; TId "add"; TId "column"; TId "if";
     TId "not"; TId "exists"; TId col; TId ty].
Proof. intros H1 H2 H3. unfold add_column_stmt. lex_text. reflexivity. Qed.

Lemma lex_select_all tn :
  plain tn = true ->
  lex (select_text tn []) = [TId "select"; TSym "*"; TId "from"; TId tn].
Proof. intros H. unfold select_text. lex_text. reflexivity. Qed.

Lemma lex_select_exists tn f :
  plain tn = true -> plain f = true ->
  lex (select_text tn [exists_ (Field_init f)])
  = [TId "select"; TSym "*"; TId "from"; TId tn; TId "where";
     TId f; TId "is"; TId "not"; TId "null"; TId "and";
     TStr ""; TSym "="; TParam f].
Proof.
  intros H1 H2. pose proof (plain_all _ H2).
  unfold select_text, join, map, render_field, exists_, Field_init; cbn [name op format_op].
  lex_text. reflexivity.
Qed.
End Lexing.

(** ** What the engine makes of the program's statements *)

Section Statements.
Import Pg.
Implicit Types (d : DB) (tn col f : string) (toks : list token).

Lemma bind_params_ok stmt params toks :
  Forall (bindable params) toks -> bind_params stmt params toks = Ok ().
Proof.
  induction 1 as [|t toks Ht _ IH]; [done|].
  destruct t; cbn [bind_params]; try exact IH.
  destruct Ht as (m & v & -> & Hk & Hv). by rewrite Hk, Hv.
Qed.

Lemma strip_app pre toks : strip pre (pre ++ toks) = Some toks.
Proof.
  induction pre as [|p pre IH]; [done|].
  cbn [strip app]. by rewrite decide_True.
Qed.

Lemma bindable_prefix (pre toks : list token) params :
  Forall (bindable None) pre -> Forall (bindable params) toks ->
  Forall (bindable params) (pre ++ toks).
Proof.
  intros Hpre Htoks. apply Forall_app. split; [|done].
  eapply Forall_impl; [exact Hpre|]. intros [] Hx; try done.
  by destruct Hx as (? & ? & ? & _).
Qed.


Lemma columns_prefix_bindable : Forall (bindable None) columns_prefix.
Proof. unfold columns_prefix. repeat constructor. Qed.


Lemma columns_not_exists toks : strip exists_prefix (columns_prefix ++ toks) = None.
Proof. reflexivity. Qed.

Lemma execute_columns_stmt d tn :
  plain tn = true ->
  execute d (columns_stmt tn) None = Ok (d, Some (from_option listing [] (d !! tn))).
Proof.
  intros H. unfold execute. rewrite (lex_columns_stmt _ H).
  rewrite bind_params_ok
    by (apply bindable_prefix; [apply columns_prefix_bindable|repeat constructor]).
  cbn [mbind Result_bind]. unfold parse, parse_catalog.
  rewrite columns_not_exists, strip_app. reflexivity.
Qed.



Lemma parse_add_column tn col ty :
  is_name tn = true -> is_name col = true ->
  parse [TId "alter"; TId "table"; TId tn; TId "add"; TId "column"; TId "if";
         TId "not"; TId "exists"; TId col; TId ty]
  = Some (SAddColumn tn col ty).
Proof.
  intros H1 H2. unfold parse.
  change (parse_catalog _) with (@None Stmt).
  change (parse_select _) with (@None Stmt). cbv iota.
  unfold parse_ddl. change (bool_decide _) with true. rewrite H1.
  change (strip _ _) with (Some [TId col; TId ty]).
  cbn [andb]. cbv beta iota. by rewrite H2.
Qed.

Lemma execute_add_column_stmt d tn col ty :
  ident tn = true -> ident col = true -> plain ty = true ->
  execute d (add_column_stmt tn col ty) None
  = run (add_column_stmt tn col ty) d ∅ (SAddColumn tn col ty).
Proof.
  intros H1 H2 H3. unfold execute.
  rewrite (lex_add_column_stmt _ _ _ (ident_plain _ H1) (ident_plain _ H2) H3).
  rewrite bind_params_ok by repeat constructor.
  cbn [mbind Result_bind].
  by rewrite (parse_add_column _ _ _ (ident_name _ H1) (ident_name _ H2)).
Qed.

Lemma parse_select_all tn :
  is_name tn = true ->
  parse [TId "select"; TSym "*"; TId "from"; TId tn] = Some (SSelect tn []).
Proof.
  intros H. unfold parse.
  change (parse_catalog _) with (@None Stmt). cbv iota.
  unfold parse_select. change (strip _ _) with (Some [TId tn]).
  cbv beta iota. by rewrite H.
Qed.

Lemma execute_select_all d tn m :
  ident tn = true ->
  execute d (select_text tn []) (Some m)
  = run (select_text tn []) d m (SSelect tn []).
Proof.
  intros H. unfold execute. rewrite (lex_select_all _ (ident_plain _ H)).
  rewrite bind_params_ok by repeat constructor.
  cbn [mbind Result_bind]. by rewrite (parse_select_all _ (ident_name _ H)).
Qed.

Lemma name_not_and f : is_name f = true -> TId f <> TId "and".
Proof. intros H [= ->]. discriminate H. Qed.

Lemma split_and_other t toks :
  t <> TId "and" ->
  split_and (t :: toks)
  = match split_and toks with
    | c :: cs => (t :: c) :: cs
    | [] => [[t]]
    end.
Proof. intros H. cbn [split_and]. by rewrite decide_False. Qed.

Lemma parse_cond_not_null f :
  is_name f = true ->
  parse_cond [TId f; TId "is"; TId "not"; TId "null"] = Some (CIsNotNull (OCol f)).
Proof.
  intros H. unfold parse_cond.
  rewrite decide_True by reflexivity.
  cbn [parse_operand]. by rewrite H.
Qed.

Lemma parse_where_exists f :
  is_name f = true ->
  parse_where [TId f; TId "is"; TId "not"; TId "null"; TId "and";
               TStr ""; TSym "="; TParam f]
  = Some (exists_cond f).
Proof.
  intros H. unfold parse_where.
  rewrite (split_and_other _ _ (name_not_and _ H)).
  change (split_and _)
    with [[TId "is"; TId "not"; TId "null"]; [TStr ""; TSym "="; TParam f]].
  cbv beta iota. cbn [mapM].
  rewrite (parse_cond_not_null _ H). reflexivity.
Qed.

Lemma parse_select_exists tn f :
  is_name tn = true -> is_name f = true ->
  parse [TId "select"; TSym "*"; TId "from"; TId tn; TId "where";
         TId f; TId "is"; TId "not"; TId "null"; TId "and";
         TStr ""; TSym "="; TParam f]
  = Some (SSelect tn (exists_cond f)).
Proof.
  intros H1 H2. unfold parse.
  change (parse_catalog _) with (@None Stmt). cbv iota.
  unfold parse_select.
  change (strip _ _)
    with (Some [TId tn; TId "where"; TId f; TId "is"; TId "not"; TId "null";
                TId "and"; TStr ""; TSym "="; TParam f]).
  cbv beta iota. rewrite H1. change (bool_decide _) with true. cbn [andb].
  by rewrite (parse_where_exists _ H2).
Qed.

Lemma fmt_values_exists f :
  fmt_values [exists_ (Field_init f)] = <[f := VStr ""]> ∅.
Proof. reflexivity. Qed.

Lemma execute_select_exists d tn f :
  ident tn = true -> ident f = true ->
  execute d (select_text tn [exists_ (Field_init f)])
          (Some (fmt_values [exists_ (Field_init f)]))
  = run (select_text tn [exists_ (Field_init f)]) d (<[f := VStr ""]> ∅)
        (SSelect tn (exists_cond f)).
Proof.
  intros H1 H2. unfold execute.
  rewrite (lex_select_exists _ _ (ident_plain _ H1) (ident_plain _ H2)).
  rewrite fmt_values_exists.
  rewrite bind_params_ok.
  2:{ repeat constructor. exists (<[f := VStr ""]> ∅), (VStr "").
      by rewrite lookup_insert_eq. }
  cbn [mbind Result_bind default].
  by rewrite (parse_select_exists _ _ (ident_name _ H1) (ident_name _ H2)).
Qed.

Lemma select_rows_all m rs : select_rows m [] rs = Ok rs.
Proof. induction rs as [|r rs IH]; [done|]. cbn. by rewrite IH. Qed.

Lemma matches_exists f r :
  matches (<[f := VStr ""]> ∅) r (exists_cond f) = Ok (not_null f r).
Proof.
  unfold exists_cond, not_null. cbn [matches eval_cond eval_operand].
  replace (cell (<[f := VStr ""]> ∅) f) with (VStr "")
    by (unfold cell; by rewrite lookup_insert_eq).
  cbn. by destruct (cell r f).
Qed.

Lemma select_rows_exists f rs :
  select_rows (<[f := VStr ""]> ∅) (exists_cond f) rs
  = Ok (List.filter (not_null f) rs).
Proof.
  induction rs as [|r rs IH]; [done|].
  cbn [select_rows List.filter]. rewrite matches_exists, IH. cbn.
  by destruct (not_null f r).
Qed.
End Statements.

(** ** The methods of [Table] on the engine *)

Section Methods.
Import Pg.
Implicit Types (self : Table) (c : Conn) (tn f : string).

Lemma cursor_execute_ok c stmt params d res :
  execute (session c) stmt params = Ok (d, res) ->
  cursor_execute stmt params c = (Ok res, after c d [CExecute stmt params]).
Proof. intros H. unfold cursor_execute. by rewrite H. Qed.

Lemma cursor_execute_raise c stmt params e :
  execute (session c) stmt params = Raise e ->
  cursor_execute stmt params c
  = (Raise e, after c (session c) [CExecute stmt params]).
Proof. intros H. unfold cursor_execute. by rewrite H. Qed.

Lemma after_after c d1 d2 l1 l2 :
  after (after c d1 l1) d2 l2 = after c d2 (l1 ++ l2).
Proof. unfold after. cbn. by rewrite app_assoc. Qed.


Lemma column_entries td :
  mapM column_entry (listing td)
  = Ok (map (fun p => (fst p, VStr (data_type (snd p)))) (cols td)).
Proof.
  unfold listing. induction (cols td) as [|p l IH]; [done|].
  cbn [map mapM]. rewrite IH. reflexivity.
Qed.

Lemma columns_spec self c :
  plain (table_name self) = true ->
  columns self c
  = (Ok (column_map (session c) (table_name self)),
     after c (session c) [CExecute (columns_stmt (table_name self)) None]).
Proof.
  intros H. unfold columns, mbind, M_bind.
  rewrite (cursor_execute_ok _ _ _ _ _ (execute_columns_stmt (session c) _ H)).
  cbn [fetchall mret M_ret lift]. unfold column_map.
  destruct (session c !! table_name self) as [td|]; cbn [from_option].
  - by rewrite column_entries.
  - reflexivity.
Qed.

Lemma find_snoc {A} (p : A -> bool) (l : list A) (x : A) :
  find p (l ++ [x]) = match find p l with
                      | Some y => Some y
                      | None => if p x then Some x else None
                      end.
Proof.
  induction l as [|y l IH]; [done|]. cbn. destruct (p y); [done|exact IH].
Qed.

Lemma column_map_lookup d tn td k :
  d !! tn = Some td ->
  is_Some (column_map d tn !! k) <-> is_Some (col_type td k).
Proof.
  intros Hd. unfold column_map, col_type. rewrite Hd. cbn [from_option].
  induction (cols td) as [|p l IH] using rev_ind.
  - cbn. split; intros [? ?]; [by rewrite lookup_empty in *|done].
  - rewrite map_app. cbn [map]. rewrite dict_of_snoc. cbn [fst snd].
    rewrite find_snoc.
    destruct (decide (fst p = k)) as [->|Hne].
    + rewrite lookup_insert_eq. split; [intros _|by eauto].
      destruct (find _ l); cbn; [by eauto|].
      by rewrite String.eqb_refl.
    + rewrite lookup_insert_ne by done. rewrite IH.
      destruct (find _ l); cbn; [done|].
      destruct (String.eqb_spec (fst p) k); [done|]. done.
Qed.



End Methods.

(** ** Main results *)







Lemma query_all_spec (self : Table) (c : Conn) (td : Pg.TableData) :
  ident (table_name self) = true ->
  session c !! table_name self = Some td ->
  query self [] c
  = (Ok (map (Pg.project td) (Pg.rows td)),
     after c (session c) [CExecute ("SELECT * FROM " +:+ table_name self) (Some ∅)]).
Proof.
  intros Hn Htd. unfold query, mbind, M_bind.
  change (query_call (table_name self) [])
    with (Some (select_text (table_name self) [], Some (∅ : gmap string Value))).
  cbv beta iota.
  rewrite (cursor_execute_ok _ _ _ (session c) (Some (map (Pg.project td) (Pg.rows td)))).
  - reflexivity.
  - rewrite execute_select_all by done.
    unfold Pg.run, Pg.get_table. rewrite Htd.
    cbn [mbind Result_bind mapM mret Result_ret].
    by rewrite select_rows_all.
Qed.



(** C9.  The parameter map has one entry per field name, holding the
    operand of the last expression on that field, so every placeholder of
    the field is bound to it.  With [Field("x").greater_than(1)] and
    [Field("x").less_than(5)] the statement compares [x] with 5 twice, and a
    row with [x = 3], which lies between 1 and 5, is not returned. *)
Theorem same_field_last_operand (tn : string) (fs : list Field) (n : string) :
  (exists stmt params,
      query_call tn (AField <$> fs) = Some (stmt, Some params)
      /\ params !! n = value <$> last (filter (fun g => name g = n) fs))
  /\ query_call "t" [AField (greater_than (Field_init "x") (VInt 1));
                     AField (less_than (Field_init "x") (VInt 5))]
     = Some ("SELECT * FROM t WHERE x > %(x)s AND x < %(x)s",
             Some {[ "x" := VInt 5 ]})
  /\ fst (query (mkTableObj 0 "t")
                [AField (greater_than (Field_init "x") (VInt 1));
                 AField (less_than (Field_init "x") (VInt 5))] x3_conn)
     = Ok []
  /\ fst (query (mkTableObj 0 "t")
                [AField (greater_than (Field_init "x") (VInt 1))] x3_conn)
     = Ok [[("x", VInt 3)]]
  /\ fst (query (mkTableObj 0 "t")
                [AField (less_than (Field_init "x") (VInt 5))] x3_conn)
     = Ok [[("x", VInt 3)]].
Proof.
  split; [|repeat split; vm_compute; reflexivity].
  eexists _, _. rewrite query_call_fields. split; [reflexivity|].
  apply fmt_values_lookup.
Qed.

(** C10.  When the arguments are neither all [Field]s nor a single string,
    [query] executes nothing (the connection and its record of calls are
    unchanged) and [fetchall] on the unused cursor raises. *)
Theorem query_unsupported_arguments (self : Table) (args : list Arg) (c : Conn) :
  forallb isinstance_Field args = false ->
  (forall s : string, args <> [AValue (VStr s)]) ->
  query_call (table_name self) args = None
  /\ query self args c = (Raise (ProgrammingError "no results to fetch"), c).
Proof.
  intros Hall Hstr.
  assert (query_call (table_name self) args = None) as Hq.
  { unfold query_call. rewrite Hall.
    destruct args as [|[f|v] [|a args]]; try reflexivity;
      destruct v; try reflexivity.
    by destruct (Hstr s eq_refl). }
  split; [exact Hq|]. unfold query. by rewrite Hq.
Qed.

Lemma query_unsupported_arguments_witness :
  query (mkTableObj 0 "test") [AValue (VStr "integer = 1"); AValue (VStr "string = 'stuff'")]
        demo_conn
  = (Raise (ProgrammingError "no results to fetch"), demo_conn)
  /\ query (mkTableObj 0 "test")
           [AValue (VStr "integer = 1"); AField (equals (Field_init "string") (VStr "stuff"))]
           demo_conn
     = (Raise (ProgrammingError "no results to fetch"), demo_conn)
  /\ query (mkTableObj 0 "test") [AValue (VInt 1)] demo_conn
     = (Raise (ProgrammingError "no results to fetch"), demo_conn).
Proof.
  split; [|split].
  - apply (query_unsupported_arguments (mkTableObj 0 "test")
             [AValue (VStr "integer = 1"); AValue (VStr "string = 'stuff'")]);
      [reflexivity | intros s; discriminate].
  - apply (query_unsupported_arguments (mkTableObj 0 "test")
             [AValue (VStr "integer = 1");
              AField (equals (Field_init "string") (VStr "stuff"))]);
      [reflexivity | intros s; discriminate].
  - apply (query_unsupported_arguments (mkTableObj 0 "test") [AValue (VInt 1)]);
      [reflexivity | intros s; discriminate].
Defined.



Lemma check_exists (td : Pg.TableData) (f : string) :
  mapM (Pg.check_cond td) (exists_cond f)
  = match Pg.col_type td f with
    | Some _ => Ok [(); ()]
    | None => Raise (UndefinedColumn f)
    end.
Proof.
  unfold exists_cond. cbn [mapM Pg.check_cond Pg.check_operand].
  by destruct (Pg.col_type td f).
Qed.

(** [query(Field(f).exists())] on an existing table: the statement text,
    and what the engine answers. *)
Lemma query_exists_spec (self : Table) (c : Conn) (td : Pg.TableData) (f : string) :
  ident (table_name self) = true -> ident f = true ->
  session c !! table_name self = Some td ->
  query self [AField (exists_ (Field_init f))] c
  = (match Pg.col_type td f with
     | Some _ => Ok (map (Pg.project td) (List.filter (not_null f) (Pg.rows td)))
     | None => Raise (UndefinedColumn f)
     end,
     after c (session c)
       [CExecute (("SELECT * FROM " +:+ table_name self) +:+ " WHERE "
                    +:+ f +:+ " is not null and '' = %(" +:+ f +:+ ")s")
                 (Some {[ f := VStr "" ]})]).
Proof.
  intros Hn Hf Htd. unfold query, mbind, M_bind.
  change (query_call (table_name self) [AField (exists_ (Field_init f))])
    with (Some (select_text (table_name self) [exists_ (Field_init f)],
                Some (fmt_values [exists_ (Field_init f)]))).
  cbv beta iota.
  pose proof (execute_select_exists (session c) _ _ Hn Hf) as Hex.
  unfold Pg.run, Pg.get_table in Hex. rewrite Htd in Hex.
  cbn [mbind Result_bind] in Hex.
  rewrite check_exists, select_rows_exists in Hex.
  destruct (Pg.col_type td f) as [ty|] eqn:Hcol.
  - rewrite (cursor_execute_ok _ _ _ _ _ Hex). reflexivity.
  - rewrite (cursor_execute_raise _ _ _ _ Hex). reflexivity.
Qed.




(** C4 (as amended).  The predicate compiled from [Field(f).exists()] is
    [f is not null and '' = %(f)s] with the empty string bound to the
    placeholder; its second conjunct compares two empty strings, so the
    query returns exactly the rows whose value at [f] is not NULL, a row
    holding the empty string among them. *)
Theorem exists_selects_not_null
    (self : Table) (c : Conn) (td : Pg.TableData) (f : string) (ty : Pg.SqlType) :
  ident (table_name self) = true -> ident f = true ->
  session c !! table_name self = Some td ->
  Pg.col_type td f = Some ty ->
  query_call (table_name self) [AField (exists_ (Field_init f))]
  = Some (("SELECT * FROM " +:+ table_name self) +:+ " WHERE "
            +:+ f +:+ " is not null and '' = %(" +:+ f +:+ ")s",
          Some {[ f := VStr "" ]})
  /\ fst (query self [AField (exists_ (Field_init f))] c)
     = Ok (map (Pg.project td) (List.filter (not_null f) (Pg.rows td)))
  /\ (forall r : gmap string Value, r !! f = Some (VStr "") -> not_null f r = true).
Proof.
  intros Hn Hf Htd Hcol. split; [reflexivity|]. split.
  - rewrite (query_exists_spec _ _ td) by done. by rewrite Hcol.
  - intros r Hr. unfold not_null, Pg.cell. by rewrite Hr.
Qed.

Lemma exists_selects_not_null_witness :
  fst (query (mkTableObj 0 "test") [AField (exists_ (Field_init "string"))] demo_conn)
  = Ok (map (Pg.project demo_table) (List.filter (not_null "string") (Pg.rows demo_table))).
Proof.
  apply (exists_selects_not_null (mkTableObj 0 "test") demo_conn demo_table
           "string" Pg.TVarchar); reflexivity.
Defined.

(** C4, as stated, fails: the row whose [string] is the empty string is
    returned by [query(Field("string").exists())]. *)
Lemma exists_matches_empty_string :
  fst (query (mkTableObj 0 "test") [AField (exists_ (Field_init "string"))] demo_conn)
  = Ok [[("integer", VInt 1); ("string", VStr "stuff")];
        [("integer", VInt 2); ("string", VStr "")]].
Proof. vm_compute. reflexivity. Qed.


(** ** [insert]: the columns it adds before the INSERT statement *)

Section Reconcile.
Import Pg.
Variable dumps : Value -> string.
Variable self : Table.
Hypothesis Hself : ident (table_name self) = true.

Implicit Types (c : Conn) (td : TableData) (k : string) (v : Value).



Lemma add_column_spec c td k s ty :
  ident k = true -> plain s = true -> parse_type s = Some ty ->
  session c !! table_name self = Some td ->
  col_type td k = None ->
  add_column self k s c
  = (Ok (),
     after c (<[table_name self := with_column td k ty]> (session c))
           [CExecute (add_column_stmt (table_name self) k s) None]).
Proof.
  intros Hk Hs Hty Htd Hcol. unfold add_column, mbind, M_bind.
  rewrite (cursor_execute_ok _ _ _
             (<[table_name self := with_column td k ty]> (session c)) None).
  - reflexivity.
  - rewrite execute_add_column_stmt by done.
    unfold run, get_table. rewrite Htd. cbn [mbind Result_bind].
    by rewrite Hty, Hcol.
Qed.


End Reconcile.




(** C2.  The serialization step of [insert] refers to a module [json] that
    the file never imports.  For a record with one field of structured
    kind that has no column yet, the column is added with type json and
    the insert then raises [NameError]: no INSERT statement is executed
    and no row is written. *)
Theorem insert_structured_value_raises
    (dumps : Value -> string) (self : Table) (c : Conn) (td : Pg.TableData)
    (k : string) (v : Value) :
  ident (table_name self) = true -> ident k = true ->
  session c !! table_name self = Some td ->
  Pg.col_type td k = None ->
  type_of v = TyList \/ type_of v = TyDict ->
  insert dumps self [(k, v)] c
  = (Raise (NameError "json"),
     after c (<[table_name self := with_column td k Pg.TJson]> (session c))
       [CExecute (columns_stmt (table_name self)) None;
        CExecute (add_column_stmt (table_name self) k "json") None;
        CExecute (columns_stmt (table_name self)) None]).
Proof.
  intros Hn Hk Htd Hcol Hty. pose proof (ident_plain _ Hn) as Hp.
  assert (type_mapping_get (type_of v) = Ok "json") as Hmap
    by (destruct Hty as [-> | ->]; reflexivity).
  assert (column_map (session c) (table_name self) !! k = None) as Hcs.
  { destruct (column_map (session c) (table_name self) !! k) eqn:E; [|done].
    destruct (proj1 (column_map_lookup _ _ td k Htd)) as [? ?]; [eauto|congruence]. }
  unfold insert. unfold mbind at 1, M_bind at 1.
  cbn [add_missing]. unfold mbind at 1, M_bind at 1.
  rewrite columns_spec by done. rewrite Hcs, Hmap.
  unfold mbind at 1, M_bind at 1. unfold mbind at 1, M_bind at 1, lift at 1.
  rewrite (add_column_spec self Hn _ td k "json" Pg.TJson) by done.
  unfold mret at 1, M_ret at 1. unfold mbind at 1, M_bind at 1.
  rewrite columns_spec by done.
  rewrite !after_after. cbn [session after app].
  assert (column_map (<[table_name self := with_column td k Pg.TJson]> (session c))
                     (table_name self) !! k = Some (VStr "json")) as Hjson.
  { unfold column_map. rewrite lookup_insert_eq. cbn [from_option with_column Pg.cols].
    rewrite map_app. cbn [map]. rewrite dict_of_snoc. cbn [fst snd].
    by rewrite lookup_insert_eq. }
  unfold mbind at 1, M_bind at 1, lift at 1.
  cbn [mapM bound_value]. rewrite Hjson. reflexivity.
Qed.

Lemma insert_structured_value_raises_witness :
  insert (fun _ => "") (mkTableObj 0 "test")
         [("list", VList [VStr "one"; VStr "two"])] demo_conn
  = (Raise (NameError "json"),
     after demo_conn (<["test" := with_column demo_table "list" Pg.TJson]> (session demo_conn))
       [CExecute (columns_stmt "test") None;
        CExecute (add_column_stmt "test" "list" "json") None;
        CExecute (columns_stmt "test") None]).
Proof.
  apply (insert_structured_value_raises (fun _ => "") (mkTableObj 0 "test")
           demo_conn demo_table "list" (VList [VStr "one"; VStr "two"]));
    try reflexivity.
  left. reflexivity.
Defined.

(** ** The schema under sequences of operations *)

Section Growth.
Import Pg.
Variable dumps : Value -> string.
Variable self : Table.






















End Growth.


(** The structured-value example end to end: on a fresh table the insert
    of [{"list": ["one", "two"]}] raises, and the following
    [query(Field("list").exists())] finds no row. *)
Lemma structured_round_trip (dumps : Value -> string) :
  let t := mkTableObj 0 "test" in
  let c := mkConn {[ "test" := Pg.mkTable [] [] ]} [] in
  let r := insert dumps t [("list", VList [VStr "one"; VStr "two"])] c in
  fst r = Raise (NameError "json")
  /\ fst (query t [AField (exists_ (Field_init "list"))] (snd r)) = Ok [].
Proof. split; vm_compute; reflexivity. Qed.

(** * Further properties *)

(** ** More statements on the engine *)

Section MoreStatements.
Import Pg.
Implicit Types (d : DB) (tn f : string) (toks : list token).

Ltac read_piece :=
  first
    [ rewrite lex_run_plain by auto
    | rewrite lex_run_quote by auto
    | rewrite lex_run_param by auto
    | match goal with
      | |- context [lex_run ?st ?s] =>
          let r := eval vm_compute in (lex_run st s) in
          progress change (lex_run st s) with r
      end ];
  cbn [fst snd app flush].

Ltac read_text :=
  unfold lex; rewrite ?app_assoc_s;
  repeat (rewrite lex_from_app; read_piece);
  try (rewrite lex_from_end; read_piece).

Lemma parse_truncate tn :
  is_name tn = true ->
  parse [TId "truncate"; TId "table"; TId tn] = Some (STruncate tn).
Proof.
  intros H. unfold parse.
  change (parse_catalog _) with (@None Stmt).
  change (parse_select _) with (@None Stmt). cbv iota.
  unfold parse_ddl. change (bool_decide _) with true. by rewrite H.
Qed.

Lemma execute_truncate_stmt d tn :
  ident tn = true ->
  execute d (truncate_stmt tn) None
  = (td ← get_table d tn; Ok (<[tn := mkTable (cols td) []]> d, None)).
Proof.
  intros H. unfold execute. rewrite (lex_truncate_stmt _ (ident_plain _ H)).
  rewrite bind_params_ok by repeat constructor.
  cbn [mbind Result_bind]. by rewrite (parse_truncate _ (ident_name _ H)).
Qed.

Lemma lex_insert_nothing tn :
  plain tn = true ->
  lex (insert_stmt tn [])
  = [TId "insert"; TId "into"; TId tn; TSym "("; TSym ")";
     TId "values"; TSym "("; TSym ")"].
Proof.
  intros H. unfold insert_stmt. cbn [join map]. read_text. reflexivity.
Qed.

Lemma parse_insert_nothing tn :
  parse [TId "insert"; TId "into"; TId tn; TSym "("; TSym ")";
         TId "values"; TSym "("; TSym ")"] = None.
Proof.
  unfold parse.
  change (parse_catalog _) with (@None Stmt).
  change (parse_select _) with (@None Stmt). cbv iota.
  change (parse_ddl _) with (@None Stmt). cbv iota.
  lazy -[is_name]. by destruct (is_name tn).
Qed.

Lemma lex_select_unset tn f :
  plain tn = true -> plain f = true ->
  lex (select_text tn [Field_init f])
  = [TId "select"; TSym "*"; TId "from"; TId tn; TId "where";
     TId f; TId "none"; TParam f].
Proof.
  intros H1 H2. pose proof (plain_all _ H2).
  unfold select_text, join, map, render_field, Field_init; cbn [name op format_op].
  read_text. reflexivity.
Qed.

Lemma parse_select_unset tn f :
  parse [TId "select"; TSym "*"; TId "from"; TId tn; TId "where";
         TId f; TId "none"; TParam f] = None.
Proof.
  unfold parse.
  change (parse_catalog _) with (@None Stmt). cbv iota.
  assert (parse_where [TId f; TId "none"; TParam f] = None) as Hw.
  { unfold parse_where.
    destruct (decide (TId f = TId "and")) as [[= ->]|Hne]; [reflexivity|].
    rewrite (split_and_other _ _ Hne).
    change (split_and _) with [[TId "none"; TParam f]].
    reflexivity. }
  assert (parse_select [TId "select"; TSym "*"; TId "from"; TId tn; TId "where";
                        TId f; TId "none"; TParam f] = None) as ->.
  { unfold parse_select.
    change (strip _ _)
      with (Some [TId tn; TId "where"; TId f; TId "none"; TParam f]).
    cbv beta iota. destruct (is_name tn); [|done].
    change (bool_decide _) with true. cbn [andb]. by rewrite Hw. }
  change (parse_ddl _) with (@None Stmt). reflexivity.
Qed.
End MoreStatements.

(** ** [truncate] *)

(** X1.  On a table that exists, [truncate] removes every row, keeps the
    columns, and commits; the next unfiltered [query] returns no row. *)
Theorem truncate_empties_table (self : Table) (c : Conn) (td : Pg.TableData) :
  ident (table_name self) = true ->
  session c !! table_name self = Some td ->
  truncate self c
  = (Ok (),
     after c (<[table_name self := Pg.mkTable (Pg.cols td) []]> (session c))
       [CExecute ("TRUNCATE TABLE " +:+ table_name self) None; CCommit])
  /\ fst (query self [] (snd (truncate self c))) = Ok [].
Proof.
  intros Hn Htd.
  assert (truncate self c
          = (Ok (),
             after c (<[table_name self := Pg.mkTable (Pg.cols td) []]> (session c))
               [CExecute (truncate_stmt (table_name self)) None; CCommit])) as Ht.
  { unfold truncate, mbind, M_bind.
    rewrite (cursor_execute_ok _ _ _
               (<[table_name self := Pg.mkTable (Pg.cols td) []]> (session c)) None).
    - unfold commit, after. cbn [session calls]. by rewrite <- app_assoc.
    - rewrite execute_truncate_stmt by done. unfold Pg.get_table. by rewrite Htd. }
  split; [exact Ht|]. rewrite Ht. cbn [snd].
  rewrite (query_all_spec self _ (Pg.mkTable (Pg.cols td) [])); [done|done|].
  unfold after. cbn [session]. by rewrite lookup_insert_eq.
Qed.

Lemma truncate_empties_table_witness :
  truncate (mkTableObj 0 "test") demo_conn
  = (Ok (),
     after demo_conn
       (<["test" := Pg.mkTable (Pg.cols demo_table) []]> (session demo_conn))
       [CExecute "TRUNCATE TABLE test" None; CCommit])
  /\ fst (query (mkTableObj 0 "test") [] (snd (truncate (mkTableObj 0 "test") demo_conn)))
     = Ok [].
Proof.
  apply (truncate_empties_table (mkTableObj 0 "test") demo_conn demo_table);
    reflexivity.
Defined.

(** X2.  On a table that does not exist, [truncate] raises the engine's
    error and does not commit. *)
Theorem truncate_missing_table (self : Table) (c : Conn) :
  ident (table_name self) = true ->
  session c !! table_name self = None ->
  truncate self c
  = (Raise (UndefinedTable (table_name self)),
     after c (session c) [CExecute ("TRUNCATE TABLE " +:+ table_name self) None]).
Proof.
  intros Hn Htd. unfold truncate, mbind, M_bind.
  rewrite (cursor_execute_raise _ _ _ (UndefinedTable (table_name self))); [done|].
  rewrite execute_truncate_stmt by done. unfold Pg.get_table. by rewrite Htd.
Qed.

Lemma truncate_missing_table_witness :
  truncate (mkTableObj 0 "other") demo_conn
  = (Raise (UndefinedTable "other"),
     after demo_conn (session demo_conn) [CExecute "TRUNCATE TABLE other" None]).
Proof.
  apply (truncate_missing_table (mkTableObj 0 "other") demo_conn); reflexivity.
Defined.

(** ** Degenerate arguments *)

(** X3.  [insert] of the empty record builds [INSERT INTO <table> () VALUES ()],
    which the engine rejects: the call raises after the column listing,
    nothing is written and nothing is committed. *)
Theorem insert_empty_record (dumps : Value -> string) (self : Table) (c : Conn) :
  ident (table_name self) = true ->
  insert dumps self [] c
  = (Raise (SyntaxError_ ("INSERT INTO " +:+ table_name self +:+ " () VALUES ()")),
     after c (session c)
       [CExecute (columns_stmt (table_name self)) None;
        CExecute ("INSERT INTO " +:+ table_name self +:+ " () VALUES ()") (Some ∅)]).
Proof.
  intros Hn. pose proof (ident_plain _ Hn) as Hp.
  assert (insert_stmt (table_name self) []
          = "INSERT INTO " +:+ table_name self +:+ " () VALUES ()") as Htext
    by (unfold insert_stmt; cbn [join map]; by rewrite !app_assoc_s).
  unfold insert. cbn [add_missing map]. unfold mbind at 1, M_bind at 1, mret at 1, M_ret at 1.
  unfold mbind at 1, M_bind at 1. rewrite columns_spec by done.
  unfold mbind at 1, M_bind at 1, lift at 1. cbn [mapM mret Result_ret].
  unfold mbind, M_bind.
  rewrite (cursor_execute_raise _ _ _ (SyntaxError_ (insert_stmt (table_name self) []))).
  - rewrite after_after, Htext. reflexivity.
  - unfold Pg.execute. rewrite (lex_insert_nothing _ Hp).
    rewrite bind_params_ok by repeat constructor.
    cbn [mbind Result_bind]. by rewrite parse_insert_nothing.
Qed.

Lemma insert_empty_record_witness :
  insert (fun _ => "") (mkTableObj 0 "test") [] demo_conn
  = (Raise (SyntaxError_ "INSERT INTO test () VALUES ()"),
     after demo_conn (session demo_conn)
       [CExecute (columns_stmt "test") None;
        CExecute "INSERT INTO test () VALUES ()" (Some ∅)]).
Proof.
  apply (insert_empty_record (fun _ => "") (mkTableObj 0 "test") demo_conn).
  reflexivity.
Defined.

(** X4.  A [Field] on which no comparison was called has [op = None]:
    [query] renders it as [<field> None %(<field>)s] with [None] bound, the
    engine rejects the statement, and the call raises. *)
Theorem query_field_without_comparison (self : Table) (c : Conn) (f : string) :
  ident (table_name self) = true -> ident f = true ->
  query self [AField (Field_init f)] c
  = (Raise (SyntaxError_ (("SELECT * FROM " +:+ table_name self) +:+ " WHERE "
                            +:+ f +:+ " None %(" +:+ f +:+ ")s")),
     after c (session c)
       [CExecute (("SELECT * FROM " +:+ table_name self) +:+ " WHERE "
                    +:+ f +:+ " None %(" +:+ f +:+ ")s")
                 (Some {[ f := VNone ]})]).
Proof.
  intros Hn Hf. unfold query, mbind, M_bind.
  change (query_call (table_name self) [AField (Field_init f)])
    with (Some (select_text (table_name self) [Field_init f],
                Some (<[f := VNone]> (∅ : gmap string Value)))).
  cbv beta iota.
  rewrite (cursor_execute_raise _ _ _
             (SyntaxError_ (select_text (table_name self) [Field_init f]))).
  - reflexivity.
  - unfold Pg.execute.
    rewrite (lex_select_unset _ _ (ident_plain _ Hn) (ident_plain _ Hf)).
    rewrite bind_params_ok.
    2:{ repeat constructor. exists (<[f := VNone]> ∅), VNone.
        by rewrite lookup_insert_eq. }
    cbn [mbind Result_bind]. by rewrite parse_select_unset.
Qed.

Lemma query_field_without_comparison_witness :
  query (mkTableObj 0 "test") [AField (Field_init "integer")] demo_conn
  = (Raise (SyntaxError_ "SELECT * FROM test WHERE integer None %(integer)s"),
     after demo_conn (session demo_conn)
       [CExecute "SELECT * FROM test WHERE integer None %(integer)s"
                 (Some {[ "integer" := VNone ]})]).
Proof.
  apply (query_field_without_comparison (mkTableObj 0 "test") demo_conn "integer");
    reflexivity.
Defined.

(** ** The registry of table objects *)

Lemma Table_init_returns (id : nat) (n : string) (c c' : Conn) (t : Table) :
  Table_init id n c = (Ok t, c') -> t = mkTableObj id n.
Proof.
  unfold Table_init, mbind, M_bind, mret, M_ret.
  destruct (_exists (mkTableObj id n) c) as [[v|e] c1]; [|done].
  destruct (truthy v).
  - destruct (columns (mkTableObj id n) c1) as [[cs|e] c2]; [|done].
    by intros [= <- _].
  - destruct (cursor_execute (create_stmt n) None c1) as [[cur|e] c2]; [|done].
    destruct (commit c2) as [[[]|e] c3]; [|done].
    destruct (columns (mkTableObj id n) c3) as [[cs|e] c4]; [|done].
    by intros [= <- _].
Qed.

(** X5.  The registry stays in order under [table], for any name and
    whether the call returns or raises: handles are filed under their own
    table name and distinct names have distinct objects.  When the call
    returns, the handle it returns is the one filed under the name. *)
Theorem table_keeps_registry (h : Helenus) (n : string) :
  registry_ok h ->
  registry_ok (snd (table h n))
  /\ (forall t, fst (table h n) = Ok t ->
        tables (snd (table h n)) !! n = Some t /\ table_name t = n).
Proof.
  intros [Hname Hinj]. unfold table.
  destruct (Table_init (next_oid h) n (connection h)) as [[fresh|e] c] eqn:Hinit;
    cbn [fst snd].
  - apply Table_init_returns in Hinit as ->.
    set (t := default (mkTableObj (next_oid h) n) (tables h !! n)).
    assert (table_name t = n /\ (oid t < S (next_oid h))%nat) as [Htn Hto].
    { unfold t. destruct (tables h !! n) as [t0|] eqn:Hl; cbn.
      - destruct (Hname _ _ Hl). split; [done|lia].
      - split; [done|lia]. }
    assert (forall m t', m <> n -> tables h !! m = Some t' -> oid t' <> oid t) as Hfresh.
    { intros m t' Hm Hl Heq. unfold t in Heq.
      destruct (tables h !! n) as [t0|] eqn:Hl0; cbn in Heq.
      - apply Hm. by eapply Hinj.
      - destruct (Hname _ _ Hl). lia. }
    split; [split|].
    + cbn [tables next_oid]. intros m t'. destruct (decide (n = m)) as [<-|Hne].
      * rewrite lookup_insert_eq. by intros [= <-].
      * rewrite lookup_insert_ne by done. intros Hl.
        destruct (Hname _ _ Hl). split; [done|lia].
    + cbn [tables]. intros n1 n2 t1 t2.
      destruct (decide (n = n1)) as [<-|Hn1], (decide (n = n2)) as [<-|Hn2];
        rewrite ?lookup_insert_eq, ?lookup_insert_ne by done; try done.
      * intros [= <-] Hl Heq. exfalso. by apply (Hfresh n2 t2).
      * intros Hl [= <-] Heq. exfalso. by apply (Hfresh n1 t1).
      * apply Hinj.
    + intros t' [= <-]. cbn [tables]. by rewrite lookup_insert_eq.
  - split; [split|done].
    + cbn [tables next_oid]. intros m t' Hl. destruct (Hname _ _ Hl). split; [done|lia].
    + exact Hinj.
Qed.

Lemma table_keeps_registry_witness :
  registry_ok (snd (table (mkHelenus ∅ (mkConn ∅ []) 0) "test"))
  /\ (forall t, fst (table (mkHelenus ∅ (mkConn ∅ []) 0) "test") = Ok t ->
        tables (snd (table (mkHelenus ∅ (mkConn ∅ []) 0) "test")) !! "test" = Some t
        /\ table_name t = "test").
Proof.
  apply table_keeps_registry. split.
  - intros n t H. cbn [tables] in H. by rewrite lookup_empty in H.
  - intros n1 n2 t1 t2 H. cbn [tables] in H. by rewrite lookup_empty in H.
Defined.



(** ** Statements that cannot write rows *)

Section ReadOnly.
Import Pg.
Implicit Types (d : DB) (toks rest : list token).


Lemma parse_select_prefix rest :
  parse (TId "select" :: TSym "*" :: TId "from" :: rest)
  = parse_select (TId "select" :: TSym "*" :: TId "from" :: rest).
Proof.
  unfold parse. change (parse_catalog _) with (@None Stmt). cbv iota.
  destruct (parse_select _); [done|].
  change (parse_ddl _) with (@None Stmt). reflexivity.
Qed.






Lemma parse_columns_prefix rest s :
  parse (columns_prefix ++ rest) = Some s -> exists t, s = SColumns t.
Proof.
  unfold parse, parse_catalog. rewrite columns_not_exists, strip_app.
  change (parse_select _) with (@None Stmt).
  change (parse_ddl _) with (@None Stmt).
  change (parse_insert _) with (@None Stmt).
  intros H. repeat case_match; try discriminate; simplify_eq/=; eauto.
Qed.

(** The statement of [columns] reads the catalog or is rejected, whatever
    the table name. *)
Lemma execute_columns_text d (tn : string) params d' r :
  execute d (columns_stmt tn) params = Ok (d', r) -> d' = d.
Proof.
  unfold execute, lex, columns_stmt. rewrite lex_from_app.
  match goal with
  | |- context [lex_run ?st ?s] =>
      let v := eval vm_compute in (lex_run st s) in change (lex_run st s) with v
  end.
  cbn [fst snd]. fold columns_prefix.
  destruct (bind_params _ _ _); [|done]. cbn [mbind Result_bind].
  destruct (parse _) as [s|] eqn:Hp; [|done].
  destruct (parse_columns_prefix _ _ Hp) as (t & ->).
  cbn [run]. by intros [= <- _].
Qed.
End ReadOnly.

(** ** What the methods leave untouched *)



(** X8.  [columns] never changes the database, whatever the table name. *)
Theorem columns_reads_only (self : Table) (c : Conn) :
  session (snd (columns self c)) = session c
  /\ calls (snd (columns self c))
     = (calls c ++ [CExecute (columns_stmt (table_name self)) None])%list.
Proof.
  unfold columns, mbind, M_bind, cursor_execute.
  destruct (Pg.execute (session c) _ None) as [[d res]|e] eqn:Hex; [|done].
  apply execute_columns_text in Hex as ->.
  destruct res as [rs|]; cbn; [|done].
  by destruct (mapM column_entry rs).
Qed.

Section Quiet.
Variable dumps : Value -> string.
Variable self : Table.









End Quiet.


(** ** [add_column] and [columns] *)




(** X11.  [add_column] for a field that already has a column changes
    nothing: the column keeps the type it had, whatever type is asked for. *)
Theorem add_column_existing
    (self : Table) (c : Conn) (td : Pg.TableData) (k s : string)
    (ty ty0 : Pg.SqlType) :
  ident (table_name self) = true -> ident k = true ->
  plain s = true -> Pg.parse_type s = Some ty ->
  session c !! table_name self = Some td ->
  Pg.col_type td k = Some ty0 ->
  add_column self k s c
  = (Ok (),
     after c (session c) [CExecute (add_column_stmt (table_name self) k s) None]).
Proof.
  intros Hn Hk Hs Hty Htd Hcol. unfold add_column, mbind, M_bind.
  rewrite (cursor_execute_ok _ _ _ (session c) None); [done|].
  rewrite execute_add_column_stmt by done.
  unfold Pg.run, Pg.get_table. rewrite Htd. cbn [mbind Result_bind].
  by rewrite Hty, Hcol.
Qed.

Lemma add_column_existing_witness :
  add_column (mkTableObj 0 "test") "string" "bigint" demo_conn
  = (Ok (),
     after demo_conn (session demo_conn)
       [CExecute (add_column_stmt "test" "string" "bigint") None]).
Proof.
  apply (add_column_existing (mkTableObj 0 "test") demo_conn demo_table
           "string" "bigint" Pg.TBigint Pg.TVarchar); reflexivity.
Defined.

(** ** Comparison expressions, from text back to structure *)

Ltac read_next :=
  first
    [ rewrite lex_run_plain by auto
    | rewrite lex_run_quote by auto
    | rewrite lex_run_param by auto
    | match goal with
      | |- context [Pg.lex_run ?st ?s] =>
          let r := eval vm_compute in (Pg.lex_run st s) in
          progress change (Pg.lex_run st s) with r
      end ];
  cbn [fst snd app Pg.flush].

Section Comparisons.
Import Pg.
Implicit Types (f : Field) (fs : list Field) (tn : string) (d : DB).

Lemma is_cmp_cases (o : string) :
  is_cmp o = true -> o = "=" \/ o = "<" \/ o = ">" \/ o = "<=" \/ o = ">=".
Proof.
  unfold is_cmp. cbn [existsb].
  rewrite !orb_true_iff, !String.eqb_eq.
  intros H. repeat (destruct H as [H|H]; [auto 10|]). discriminate.
Qed.

Lemma comparison_parts f :
  comparison f = true ->
  ident (name f) = true
  /\ (exists o, op f = Some o /\ is_cmp o = true)
  /\ adaptable (value f) = true.
Proof.
  unfold comparison. intros [[H1 H2]%andb_true_iff H3]%andb_true_iff.
  repeat split; [done| |done]. destruct (op f) as [o|]; [|done]. by exists o.
Qed.

Lemma lex_field f (rest : string) :
  comparison f = true ->
  lex_from LIdle (render_field f +:+ " " +:+ rest)
  = (field_tokens f ++ lex_from LIdle rest)%list
  /\ lex_from LIdle (render_field f) = field_tokens f.
Proof.
  intros (Hn & (o & Ho & Hcmp) & _)%comparison_parts.
  pose proof (ident_plain _ Hn) as Hp. pose proof (plain_all _ Hp) as Ha.
  unfold render_field, field_tokens. rewrite Ho. cbn [format_op].
  destruct (is_cmp_cases _ Hcmp) as [->|[->|[->|[->| ->]]]];
    (split;
     [ rewrite ?app_assoc_s; repeat (rewrite lex_from_app; read_next); reflexivity
     | rewrite ?app_assoc_s; repeat (rewrite lex_from_app; read_next);
       rewrite lex_from_end; read_next; reflexivity ]).
Qed.

Lemma lex_where fs :
  fs <> [] -> Forall (fun f => comparison f = true) fs ->
  lex_from LIdle (join " AND " (map render_field fs)) = where_tokens fs.
Proof.
  intros Hne Hall. induction Hall as [|f fs Hf Hall IH]; [done|].
  destruct fs as [|g fs].
  - cbn [map join where_tokens]. exact (proj2 (lex_field f "" Hf)).
  - change (join " AND " (map render_field (f :: g :: fs)))
      with (render_field f +:+ " " +:+ "AND " +:+ join " AND " (map render_field (g :: fs))).
    rewrite (proj1 (lex_field f _ Hf)).
    rewrite lex_from_app.
    change (lex_run LIdle "AND ") with ([TId "and"], LIdle).
    cbn [fst snd]. rewrite IH by done. reflexivity.
Qed.

Lemma lex_select_where tn fs :
  plain tn = true -> fs <> [] -> Forall (fun f => comparison f = true) fs ->
  lex (select_text tn fs)
  = ([TId "select"; TSym "*"; TId "from"; TId tn; TId "where"] ++ where_tokens fs)%list.
Proof.
  intros Hp Hne Hall. unfold lex, select_text.
  destruct fs as [|f fs]; [done|].
  rewrite ?app_assoc_s. do 3 (rewrite lex_from_app; read_next).
  by rewrite lex_where.
Qed.

Lemma comparison_not_and f : comparison f = true -> TId (name f) <> TId "and".
Proof.
  intros (Hn & _)%comparison_parts. apply name_not_and. by apply ident_name.
Qed.

Lemma split_and_field f :
  comparison f = true -> split_and (field_tokens f) = [field_tokens f].
Proof.
  intros Hf. unfold field_tokens.
  rewrite (split_and_other _ _ (comparison_not_and _ Hf)). reflexivity.
Qed.

Lemma split_and_where fs :
  fs <> [] -> Forall (fun f => comparison f = true) fs ->
  split_and (where_tokens fs) = map field_tokens fs.
Proof.
  intros Hne Hall. induction Hall as [|f fs Hf Hall IH]; [done|].
  destruct fs as [|g fs]; [by apply split_and_field|].
  change (where_tokens (f :: g :: fs))
    with (TId (name f) :: TSym (format_op (op f)) :: TParam (name f)
          :: TId "and" :: where_tokens (g :: fs)).
  rewrite (split_and_other _ _ (comparison_not_and _ Hf)).
  assert (split_and (TSym (format_op (op f)) :: TParam (name f)
                     :: TId "and" :: where_tokens (g :: fs))
          = [TSym (format_op (op f)); TParam (name f)]
            :: split_and (where_tokens (g :: fs))) as ->.
  { cbn [split_and]. rewrite !decide_False by done. rewrite decide_True by done.
    reflexivity. }
  by rewrite IH.
Qed.

Lemma parse_cond_field f :
  comparison f = true -> parse_cond (field_tokens f) = Some (cond_of f).
Proof.
  intros (Hn & (o & Ho & Hcmp) & _)%comparison_parts.
  unfold field_tokens, cond_of, parse_cond. rewrite Ho. cbn [format_op].
  rewrite Hcmp. cbn [parse_operand]. by rewrite (ident_name _ Hn).
Qed.

Lemma parse_where_fields fs :
  fs <> [] -> Forall (fun f => comparison f = true) fs ->
  parse_where (where_tokens fs) = Some (map cond_of fs).
Proof.
  intros Hne Hall. unfold parse_where. rewrite split_and_where by done.
  clear Hne. induction Hall as [|f fs Hf Hall IH]; [done|].
  cbn [map mapM]. rewrite (parse_cond_field _ Hf), IH. reflexivity.
Qed.

Lemma parse_select_where tn fs :
  is_name tn = true -> fs <> [] -> Forall (fun f => comparison f = true) fs ->
  parse ([TId "select"; TSym "*"; TId "from"; TId tn; TId "where"] ++ where_tokens fs)
  = Some (SSelect tn (map cond_of fs)).
Proof.
  intros Hn Hne Hall. cbn [app]. rewrite parse_select_prefix.
  unfold parse_select.
  change (strip _ _) with (Some (TId tn :: TId "where" :: where_tokens fs)).
  cbv beta iota. rewrite Hn. change (bool_decide _) with true. cbn [andb].
  by rewrite parse_where_fields.
Qed.

Lemma fmt_values_bound fs f :
  f ∈ fs -> exists g, g ∈ fs /\ fmt_values fs !! name f = Some (value g).
Proof.
  intros Hf. rewrite fmt_values_lookup.
  assert (f ∈ filter (fun g => name g = name f) fs) as Hin
    by (apply list_elem_of_filter; done).
  destruct (last (filter (fun g => name g = name f) fs)) as [g|] eqn:Hl.
  - exists g. split; [|done]. apply last_Some in Hl as [l' Hl].
    assert (g ∈ filter (fun g => name g = name f) fs) as Hg
      by (rewrite Hl; apply elem_of_app; right; apply list_elem_of_singleton; done).
    by apply list_elem_of_filter in Hg as [? ?].
  - apply last_None in Hl. rewrite Hl in Hin. by apply elem_of_nil in Hin.
Qed.

Lemma where_tokens_bindable fs :
  Forall (fun f => comparison f = true) fs ->
  Forall (bindable (Some (fmt_values fs))) (where_tokens fs).
Proof.
  intros Hall.
  assert (forall f, f ∈ fs -> bindable (Some (fmt_values fs)) (TParam (name f))) as Hb.
  { intros f Hf. destruct (fmt_values_bound _ _ Hf) as (g & Hg & Hl).
    exists (fmt_values fs), (value g). repeat split; [done|].
    rewrite Forall_forall in Hall. pose proof (Hall g Hg) as Hc.
    by apply comparison_parts in Hc as (_ & _ & ?). }
  assert (forall gs, (forall f, f ∈ gs -> f ∈ fs) ->
            Forall (bindable (Some (fmt_values fs))) (where_tokens gs)) as Hgen.
  { induction gs as [|g gs IH]; intros Hsub; [constructor|].
    assert (Forall (bindable (Some (fmt_values fs))) (field_tokens g)) as Hg.
    { repeat constructor. apply Hb, Hsub, list_elem_of_here. }
    destruct gs as [|g' gs]; [exact Hg|].
    change (where_tokens (g :: g' :: gs))
      with (field_tokens g ++ TId "and" :: where_tokens (g' :: gs))%list.
    apply Forall_app. split; [exact Hg|]. constructor; [done|].
    apply IH. intros f Hf. by apply Hsub, list_elem_of_further. }
  by apply Hgen.
Qed.

(** The engine reads the statement compiled from comparison expressions
    back as the conjunction of those comparisons. *)
Lemma execute_select_where d tn fs :
  ident tn = true -> fs <> [] -> Forall (fun f => comparison f = true) fs ->
  execute d (select_text tn fs) (Some (fmt_values fs))
  = run (select_text tn fs) d (fmt_values fs) (SSelect tn (map cond_of fs)).
Proof.
  intros Hn Hne Hall. unfold execute.
  rewrite (lex_select_where _ _ (ident_plain _ Hn) Hne Hall).
  rewrite bind_params_ok.
  2:{ apply Forall_app. split; [repeat constructor|by apply where_tokens_bindable]. }
  cbn [mbind Result_bind default].
  by rewrite (parse_select_where _ _ (ident_name _ Hn) Hne Hall).
Qed.
End Comparisons.

Section ComparisonQueries.
Import Pg.
Implicit Types (f : Field) (fs : list Field) (self : Table) (c : Conn) (td : TableData).

Lemma query_fields_run self c td fs :
  ident (table_name self) = true ->
  fs <> [] -> Forall (fun f => comparison f = true) fs ->
  session c !! table_name self = Some td ->
  fst (query self (AField <$> fs) c)
  = (mapM (check_cond td) (map cond_of fs) ;;
     rs ← select_rows (fmt_values fs) (map cond_of fs) (rows td);
     Ok (map (project td) rs)).
Proof.
  intros Hn Hne Hall Htd. unfold query. unfold mbind at 1, M_bind at 1.
  rewrite query_call_fields. unfold cursor_execute.
  rewrite execute_select_where by done.
  unfold run, get_table. rewrite Htd. cbn [mbind Result_bind].
  destruct (mapM (check_cond td) (map cond_of fs)) as [u|e]; [|done].
  cbn [mbind Result_bind].
  by destruct (select_rows (fmt_values fs) (map cond_of fs) (rows td)).
Qed.

Lemma check_conds_ok td fs :
  Forall (fun f => is_Some (col_type td (name f))) fs ->
  exists u, mapM (check_cond td) (map cond_of fs) = Ok u.
Proof.
  induction 1 as [|f fs [ty Hf] _ [u IH]]; [by eexists|].
  cbn [map mapM cond_of check_cond check_operand]. rewrite Hf, IH.
  by eexists.
Qed.

(** X12.  For comparison expressions on columns of the table, [query]
    returns the rows the engine selects for the conjunction of the
    comparisons [<column> <op> <bound operand>], each projected on the
    columns: the engine reads the compiled text back as the expressions
    it was compiled from. *)
Theorem query_comparisons self c td fs :
  ident (table_name self) = true ->
  fs <> [] -> Forall (fun f => comparison f = true) fs ->
  session c !! table_name self = Some td ->
  Forall (fun f => is_Some (col_type td (name f))) fs ->
  fst (query self (AField <$> fs) c)
  = (rs ← select_rows (fmt_values fs)
            (map (fun f => CCmp (format_op (op f)) (OCol (name f)) (OParam (name f))) fs)
            (rows td);
     Ok (map (project td) rs)).
Proof.
  intros Hn Hne Hall Htd Hcols. rewrite (query_fields_run _ _ td) by done.
  destruct (check_conds_ok td fs Hcols) as [u ->]. reflexivity.
Qed.

Lemma query_comparisons_witness :
  fst (query (mkTableObj 0 "test")
             (AField <$> [equals (Field_init "integer") (VInt 1);
                          equals (Field_init "string") (VStr "stuff")])
             demo_conn)
  = (rs ← select_rows
            (fmt_values [equals (Field_init "integer") (VInt 1);
                         equals (Field_init "string") (VStr "stuff")])
            [CCmp "=" (OCol "integer") (OParam "integer");
             CCmp "=" (OCol "string") (OParam "string")]
            (rows demo_table);
     Ok (map (project demo_table) rs)).
Proof.
  apply (query_comparisons (mkTableObj 0 "test") demo_conn demo_table
           [equals (Field_init "integer") (VInt 1);
            equals (Field_init "string") (VStr "stuff")]);
    try reflexivity; try discriminate.
  - repeat constructor.
  - repeat constructor; by eexists.
Defined.

Lemma select_rows_sound params w rs out :
  select_rows params w rs = Ok out ->
  forall r, r ∈ out -> r ∈ rs /\ matches params r w = Ok true.
Proof.
  revert out. induction rs as [|r0 rs IH]; intros out.
  - intros [= <-] r Hr. by apply elem_of_nil in Hr.
  - cbn [select_rows].
    destruct (matches params r0 w) as [b|] eqn:Hm; [|done]. cbn [mbind Result_bind].
    destruct (select_rows params w rs) as [k|]; [|done]. cbn [mbind Result_bind].
    intros [= <-] r Hr. destruct b.
    + apply elem_of_cons in Hr as [->|Hr].
      * split; [apply list_elem_of_here|done].
      * destruct (IH k eq_refl r Hr). split; [by apply list_elem_of_further|done].
    + destruct (IH k eq_refl r Hr). split; [by apply list_elem_of_further|done].
Qed.

Lemma matches_all params r w :
  matches params r w = Ok true ->
  forall x, x ∈ w -> eval_cond params r x = Ok true.
Proof.
  induction w as [|x0 w IH]; [by intros _ x ?%elem_of_nil|].
  cbn [matches]. destruct (eval_cond params r x0) as [b|] eqn:He; [|done].
  cbn [mbind Result_bind]. destruct (matches params r w) as [b'|]; [|done].
  cbn [mbind Result_bind]. intros [= [-> ->]%andb_true_iff].
  intros x [->|Hx]%elem_of_cons; [done|by apply IH].
Qed.

Lemma compare_not_null o a b : compare_values o a b = Ok (Some true) -> a <> VNone.
Proof. by intros H ->. Qed.

Lemma row_get_project td r n :
  is_Some (col_type td n) -> row_get (project td r) n = Ok (cell r n).
Proof.
  unfold col_type, project, row_get. intros [ty Hty].
  induction (cols td) as [|p l IH]; [done|]. cbn [map find fst] in *.
  destruct (String.eqb_spec (fst p) n) as [->|Hne]; [done|]. by apply IH.
Qed.

(** X13.  A row that [query] returns for comparison expressions holds a
    value other than [None] in every compared field: a comparison with
    NULL is never true. *)
Theorem query_comparisons_skip_null self c td fs out :
  ident (table_name self) = true ->
  fs <> [] -> Forall (fun f => comparison f = true) fs ->
  session c !! table_name self = Some td ->
  Forall (fun f => is_Some (col_type td (name f))) fs ->
  fst (query self (AField <$> fs) c) = Ok out ->
  forall row f, row ∈ out -> f ∈ fs ->
    exists v, row_get row (name f) = Ok v /\ v <> VNone.
Proof.
  intros Hn Hne Hall Htd Hcols Hq row f Hrow Hf.
  rewrite (query_fields_run _ _ td) in Hq by done.
  destruct (check_conds_ok td fs Hcols) as [u Hu]. rewrite Hu in Hq.
  cbn [mbind Result_bind] in Hq.
  destruct (select_rows _ _ _) as [rs|] eqn:Hsel; [|done].
  cbn [mbind Result_bind] in Hq. injection Hq as <-.
  apply list_elem_of_In, in_map_iff in Hrow as (r & <- & Hr%list_elem_of_In).
  destruct (select_rows_sound _ _ _ _ Hsel r Hr) as [_ Hm].
  assert (cond_of f ∈ map cond_of fs) as Hc
    by (apply list_elem_of_In, in_map, list_elem_of_In, Hf).
  pose proof (matches_all _ _ _ Hm _ Hc) as He.
  exists (cell r (name f)). split.
  - apply row_get_project. rewrite Forall_forall in Hcols. by apply Hcols.
  - unfold cond_of in He. cbn [eval_cond eval_operand] in He.
    destruct (compare_values _ _ _) as [[[]|]|] eqn:Hcmp; try discriminate.
    by apply compare_not_null in Hcmp.
Qed.

Lemma query_comparisons_skip_null_witness :
  exists v, row_get [("x", VInt 3)] "x" = Ok v /\ v <> VNone.
Proof.
  apply (query_comparisons_skip_null (mkTableObj 0 "t") x3_conn
           (mkTable [("x", TBigint)] [ {[ "x" := VInt 3 ]} ])
           [greater_than (Field_init "x") (VInt 1)]
           [[("x", VInt 3)]] eq_refl
           ltac:(discriminate)
           ltac:(repeat constructor)
           eq_refl
           ltac:(repeat constructor; by eexists)
           eq_refl
           [("x", VInt 3)] (greater_than (Field_init "x") (VInt 1)));
    apply list_elem_of_here.
Defined.
End ComparisonQueries.

(** ** The raw predicate and the expression for the same test *)

Section RawPredicate.
Import Pg.
Implicit Types (self : Table) (c : Conn) (tn f s : string).

Lemma lex_run_literal (acc w : string) :
  no_quote w = true -> lex_run (LQuote acc) w = ([], LQuote (acc +:+ w)).
Proof.
  revert acc. induction w as [|ch w IH]; intros acc H.
  - by rewrite app_empty_r.
  - cbn in H. apply andb_true_iff in H as [Hc Hw].
    apply negb_true_iff in Hc.
    cbn [lex_run step]. rewrite Hc, (IH _ Hw). by rewrite snoc_app.
Qed.

Lemma lex_raw_equals tn f s :
  plain tn = true -> plain f = true -> no_quote s = true ->
  lex (("SELECT * FROM " +:+ tn) +:+ " WHERE " +:+ (f +:+ " = '" +:+ s +:+ "'"))
  = [TId "select"; TSym "*"; TId "from"; TId tn; TId "where";
     TId f; TSym "="; TStr s].
Proof.
  intros H1 H2 H3. unfold lex. rewrite ?app_assoc_s.
  do 5 (rewrite lex_from_app; read_next).
  rewrite lex_from_app, (lex_run_literal _ _ H3). cbn [fst snd app].
  reflexivity.
Qed.

Lemma parse_raw_equals tn f s :
  is_name tn = true -> is_name f = true ->
  parse [TId "select"; TSym "*"; TId "from"; TId tn; TId "where";
         TId f; TSym "="; TStr s]
  = Some (SSelect tn [CCmp "=" (OCol f) (OText s)]).
Proof.
  intros H1 H2. rewrite parse_select_prefix. unfold parse_select.
  change (strip _ _) with (Some [TId tn; TId "where"; TId f; TSym "="; TStr s]).
  cbv beta iota. rewrite H1. change (bool_decide _) with true. cbn [andb].
  unfold parse_where. rewrite (split_and_other _ _ (name_not_and _ H2)).
  change (split_and _) with [[TSym "="; TStr s]]. cbv beta iota.
  cbn [mapM]. unfold parse_cond. change (is_cmp "=") with true. cbv iota.
  cbn [parse_operand]. by rewrite H2.
Qed.

Lemma select_rows_literal f s rs :
  select_rows ∅ [CCmp "=" (OCol f) (OText s)] rs
  = select_rows (<[f := VStr s]> ∅) [CCmp "=" (OCol f) (OParam f)] rs.
Proof.
  induction rs as [|r rs IH]; [done|].
  cbn [select_rows matches eval_cond eval_operand]. rewrite IH.
  replace (cell (<[f := VStr s]> ∅) f) with (VStr s)
    by (unfold cell; by rewrite lookup_insert_eq).
  reflexivity.
Qed.

Lemma query_result self (args : list Arg) c stmt params :
  query_call (table_name self) args = Some (stmt, params) ->
  fst (query self args c)
  = match execute (session c) stmt params with
    | Ok (_, Some rs) => Ok rs
    | Ok (_, None) => Raise (ProgrammingError "no results to fetch")
    | Raise e => Raise e
    end.
Proof.
  intros Hq. unfold query, mbind, M_bind, cursor_execute. rewrite Hq.
  by destruct (execute (session c) stmt params) as [[d [rs|]]|e].
Qed.

Lemma inline_text_no_quote s : inline_text s = true -> no_quote s = true.
Proof.
  induction s as [|ch s IH]; [done|]. cbn [inline_text no_quote all_chars].
  rewrite !andb_true_iff. intros [[[_ H] _] Hs]. split; [exact H|by apply IH].
Qed.

(** X14.  The raw predicate [f = 's'] and the expression
    [Field(f).equals(s)] give the same result, rows or exception, when the
    text [s] is made of printable characters other than the apostrophe and
    the backslash. *)
Theorem raw_predicate_equals_expression self c f s :
  ident (table_name self) = true -> ident f = true -> inline_text s = true ->
  fst (query self [AValue (VStr (f +:+ " = '" +:+ s +:+ "'"))] c)
  = fst (query self [AField (equals (Field_init f) (VStr s))] c).
Proof.
  intros Hn Hf Hs%inline_text_no_quote.
  assert (comparison (equals (Field_init f) (VStr s)) = true) as Hcmp
    by (unfold comparison; cbn [name op value equals Field_init]; by rewrite Hf).
  rewrite (query_result self _ c
             (("SELECT * FROM " +:+ table_name self) +:+ " WHERE "
                +:+ (f +:+ " = '" +:+ s +:+ "'")) None) by reflexivity.
  rewrite (query_result self [AField (equals (Field_init f) (VStr s))] c _ _
             (query_call_fields (table_name self) [equals (Field_init f) (VStr s)])).
  rewrite (execute_select_where (session c) (table_name self)
             [equals (Field_init f) (VStr s)]) by (done || by repeat constructor).
  assert (execute (session c)
            (("SELECT * FROM " +:+ table_name self) +:+ " WHERE "
               +:+ (f +:+ " = '" +:+ s +:+ "'")) None
          = run "" (session c) ∅ (SSelect (table_name self) [CCmp "=" (OCol f) (OText s)]))
    as ->.
  { unfold execute.
    rewrite (lex_raw_equals _ _ _ (ident_plain _ Hn) (ident_plain _ Hf) Hs).
    rewrite bind_params_ok by repeat constructor.
    cbn [mbind Result_bind default].
    by rewrite (parse_raw_equals _ _ _ (ident_name _ Hn) (ident_name _ Hf)). }
  cbn [map cond_of name op value equals Field_init format_op run].
  change (fmt_values [equals (Field_init f) (VStr s)])
    with (<[f := VStr s]> (∅ : gmap string Value)).
  destruct (get_table (session c) (table_name self)) as [td|e]; [|done].
  unfold cond_of. cbn [name op value equals Field_init format_op].
  cbn [mbind Result_bind mapM check_cond check_operand].
  destruct (col_type td f); [|done]. cbn [mbind Result_bind mret Result_ret].
  by rewrite select_rows_literal.
Qed.

Lemma raw_predicate_equals_expression_witness :
  fst (query (mkTableObj 0 "test") [AValue (VStr "string = 'stuff'")] demo_conn)
  = fst (query (mkTableObj 0 "test")
               [AField (equals (Field_init "string") (VStr "stuff"))] demo_conn).
Proof.
  apply (raw_predicate_equals_expression (mkTableObj 0 "test") demo_conn
           "string" "stuff"); reflexivity.
Defined.
End RawPredicate.

(** ** [insert] of a record the table can store *)

Section Store.
Import Pg.
Variable dumps : Value -> string.
Variable self : Table.
Hypothesis Hself : ident (table_name self) = true.

Implicit Types (c : Conn) (td : TableData) (k : string) (v : Value)
  (items obj : list (string * Value)).

















End Store.

Section InsertStatement.
Import Pg.
Implicit Types (keys : list string) (rest : string) (toks : list token) (tn : string).










End InsertStatement.


